(** * supabase-ssr-user-impersonate-tool: the cookie-capture shim and the
      snippet emitter of [src/main.mjs], embedded and verified.

    The development follows the source top to bottom:

    - [Js]: the fragment of JavaScript the program relies on (strings,
      primitive values, ordinary objects and the order of their own
      properties, [encodeURIComponent], [JSON.stringify], [String.trim]);
    - [Shim]: the three cookie handlers given to [createServerClient]
      and the provider's [verifyOtp] driving them;
    - [Emitter]: the template literal printed on success and the
      [writeCookies] function it contains, as run in the browser;
    - [Cli]: the [run] function of the command, with its console output,
      its network calls and [process.exit];
    - [Earlier]: the earlier revision of the command;
    - [Spec], [Scenario]: the cookie assignment as the specification
      words it, and the concrete runs the properties are tried on.

    The properties follow, module by module, and then the statements
    about the configuration, the handlers, a failed verification and the
    printed snippet.

    Strings are byte strings holding UTF-8 text; a surrogate without its
    partner, which has no UTF-8 form, is held as the three bytes of its
    generalised form.  Numbers are the safe integers, which JavaScript
    holds exactly and writes digit by digit; fractions and the
    non-finite numbers are not modelled.  Cookie values are strings and
    cookie options are objects of primitive values: the interface the
    handlers implement passes an options object on every write. *)

From Stdlib Require Import String Ascii ZArith List Bool Lia.
From Stdlib Require Import DecimalString Sorted Permutation.
Import ListNotations.

Local Open Scope string_scope.
Local Open Scope Z_scope.

(* ================================================================== *)
(** * The JavaScript fragment *)
(* ================================================================== *)

Module Js.

(** ** Characters and strings *)

(** The double quote, kept out of string literals. *)
Definition dq : string := String (ascii_of_nat 34) EmptyString.
(** The backslash. *)
Definition bs : string := String (ascii_of_nat 92) EmptyString.
(** Line feed, as written by a line break inside a template literal. *)
Definition nl : string := String (ascii_of_nat 10) EmptyString.

Definition code (c : ascii) : N := N_of_ascii c.

Definition in_range (lo hi : N) (c : ascii) : bool :=
  (N.leb lo (code c) && N.leb (code c) hi)%bool.

Definition is_digit (c : ascii) : bool := in_range 48 57 c.
Definition is_upper (c : ascii) : bool := in_range 65 90 c.
Definition is_lower (c : ascii) : bool := in_range 97 122 c.

Definition hex_digit (upper : bool) (n : N) : ascii :=
  if N.ltb n 10 then ascii_of_N (48 + n)
  else ascii_of_N ((if upper then 55 else 87) + n).

(** Two hexadecimal digits of a byte. *)
Definition hex2 (upper : bool) (c : ascii) : string :=
  String (hex_digit upper (N.div (code c) 16))
    (String (hex_digit upper (N.modulo (code c) 16)) EmptyString).

Fixpoint flat_map_string (f : ascii -> string) (s : string) : string :=
  match s with
  | EmptyString => EmptyString
  | String c s' => f c ++ flat_map_string f s'
  end.

(** ** Well-formed strings

    A JavaScript string is a sequence of 16-bit code units.  It is
    well-formed when every surrogate is part of a pair; then it is the
    UTF-8 text held here.  A surrogate on its own (U+D800 to U+DFFF) is
    held as the three bytes [ED], [A0..BF], [80..BF], which UTF-8 text
    never contains. *)

Definition is_lone_surrogate (c d : ascii) : bool :=
  (N.eqb (code c) 237 && in_range 160 191 d)%bool.

Fixpoint well_formed (s : string) : bool :=
  match s with
  | EmptyString => true
  | String c s' =>
      match s' with
      | String d _ =>
          if is_lone_surrogate c d then false else well_formed s'
      | EmptyString => true
      end
  end.

(** The code unit of the surrogate held as [ED], [d], [e]. *)
Definition surrogate_unit (d e : ascii) : N :=
  (53248 + 64 * (N.modulo (code d) 64) + N.modulo (code e) 64)%N.

(** Four hexadecimal digits, in lower case. *)
Definition hex4 (n : N) : string :=
  String (hex_digit false (N.modulo (N.div n 4096) 16))
    (String (hex_digit false (N.modulo (N.div n 256) 16))
       (String (hex_digit false (N.modulo (N.div n 16) 16))
          (String (hex_digit false (N.modulo n 16)) EmptyString))).

(** ** [encodeURIComponent]

    ECMA-262, [Encode]: every character outside the unreserved set
    (letters, digits and [- _ . ! ~ * ' ( )]) is replaced by the escapes
    of its UTF-8 encoding, one [%XX] with upper-case digits per octet.
    On a string that is already UTF-8, that is an escape per byte.  On
    a string that is not well-formed the function throws a [URIError];
    its callers here test [well_formed] first. *)

Definition uriMark (c : ascii) : bool :=
  existsb (N.eqb (code c)) [45; 95; 46; 33; 126; 42; 39; 40; 41]%N.

Definition uriUnescaped (c : ascii) : bool :=
  (is_upper c || is_lower c || is_digit c || uriMark c)%bool.

Definition encode_octet (c : ascii) : string :=
  if uriUnescaped c then String c EmptyString
  else String "%"%char (hex2 true c).

Definition encodeURIComponent (s : string) : string :=
  flat_map_string encode_octet s.

(** ** Primitive values *)

(** The values a cookie attribute holds.  [VNum n] is the number [n],
    for [n] a safe integer (at most [2^53 - 1] in absolute value): the
    integers a Number holds exactly.  Other numbers are not modelled:
    fractions, larger numbers, [NaN] and the infinities (for the last
    three [JSON.stringify] writes [null]). *)
Inductive Value : Type :=
| VUndefined
| VNull
| VBool (b : bool)
| VNum (n : Z)
| VStr (s : string).

(** [Number.isSafeInteger]: the integers from [-(2^53 - 1)] to
    [2^53 - 1]. *)
Definition safe_integer (n : Z) : bool := Z.leb (Z.abs n) (2 ^ 53 - 1).

(** [Number::toString] on a safe integer: all its decimal digits, a
    leading minus sign for negative numbers. *)
Definition number_to_string (n : Z) : string :=
  NilZero.string_of_int (Z.to_int n).

(** [ToString], as applied by [+] with a string operand. *)
Definition ToString (v : Value) : string :=
  match v with
  | VUndefined => "undefined"
  | VNull => "null"
  | VBool true => "true"
  | VBool false => "false"
  | VNum n => number_to_string n
  | VStr s => s
  end.

(** [ToBoolean], as applied by [if (x)], [!x] and [x || y]. *)
Definition ToBoolean (v : Value) : bool :=
  match v with
  | VUndefined | VNull => false
  | VBool b => b
  | VNum n => negb (Z.eqb n 0)
  | VStr EmptyString => false
  | VStr (String _ _) => true
  end.

(** [x !== undefined]. *)
Definition is_defined (v : Value) : bool :=
  match v with
  | VUndefined => false
  | _ => true
  end.

(** ** Ordinary objects

    An object is represented by its own enumerable string-keyed
    properties, in the order they were created.  All objects of the
    program are created by [{}] or an object literal, so their prototype
    is [Object.prototype]. *)

Definition Obj (A : Type) : Type := list (string * A).

Definition proto_key : string := "__proto__".

Section Objects.
Context {A : Type}.

(** [o.hasOwnProperty(k)] *)
Definition has_own (o : Obj A) (k : string) : bool :=
  existsb (fun p => String.eqb (fst p) k) o.

(** The own property [k] of [o], if there is one. *)
Fixpoint get_own (o : Obj A) (k : string) : option A :=
  match o with
  | [] => None
  | (k', v) :: o' => if String.eqb k' k then Some v else get_own o' k
  end.

(** The own property [k] is overwritten where it stands. *)
Fixpoint replace_own (o : Obj A) (k : string) (v : A) : Obj A :=
  match o with
  | [] => []
  | (k', v') :: o' =>
      if String.eqb k' k then (k', v) :: o'
      else (k', v') :: replace_own o' k v
  end.

(** [o[k] = v].  [Object.prototype] has an accessor named [__proto__]
    whose setter replaces the prototype of the receiver (ECMA-262,
    [set Object.prototype.__proto__]), so the assignment
    [o["__proto__"] = v] with [v] an object defines no own property.
    Any other key is an own data property: overwritten when it exists,
    created last otherwise. *)
Definition put (o : Obj A) (k : string) (v : A) : Obj A :=
  if String.eqb k proto_key then o
  else if has_own o k then replace_own o k v
  else (o ++ [(k, v)])%list.

End Objects.

(** The own property names, in creation order. *)
Definition keys {A : Type} (o : Obj A) : list string := map fst o.

(** An object has one property per key. *)
Definition is_object {A : Type} (o : Obj A) : Prop := NoDup (keys o).

(** The property read [o.k] on an object of primitive values:
    [undefined] when [o] has no such property. *)
Definition get_prop (o : Obj Value) (k : string) : Value :=
  match get_own o k with
  | Some v => v
  | None => VUndefined
  end.

(** ** Property order

    [OrdinaryOwnPropertyKeys] (ECMA-262) lists the array
    indices first, in ascending numeric order, then the other strings in
    creation order.  [JSON.stringify] and [for-in] follow it. *)

Fixpoint digits_value (acc : N) (s : string) : option N :=
  match s with
  | EmptyString => Some acc
  | String c s' =>
      if is_digit c then digits_value (10 * acc + (code c - 48))%N s'
      else None
  end.

(** An array index is the canonical decimal form of an integer below
    [2^32 - 1]: digits only, no leading zero except for ["0"] itself. *)
Definition array_index (k : string) : option N :=
  match k with
  | EmptyString => None
  | String "0"%char (String _ _) => None
  | _ =>
      match digits_value 0%N k with
      | Some n => if N.ltb n 4294967295 then Some n else None
      | None => None
      end
  end.

Definition is_index (k : string) : bool :=
  match array_index k with Some _ => true | None => false end.

Section Enumeration.
Context {A : Type}.

Fixpoint insert_index (i : N) (p : string * A)
    (l : list (N * (string * A))) : list (N * (string * A)) :=
  match l with
  | [] => [(i, p)]
  | (j, q) :: l' =>
      if N.leb i j then (i, p) :: l else (j, q) :: insert_index i p l'
  end.

(** The index-keyed properties of [o], sorted by index. *)
Fixpoint index_props (o : Obj A) : list (N * (string * A)) :=
  match o with
  | [] => []
  | p :: o' =>
      match array_index (fst p) with
      | Some i => insert_index i p (index_props o')
      | None => index_props o'
      end
  end.

Definition named_props (o : Obj A) : Obj A :=
  filter (fun p => negb (is_index (fst p))) o.

(** Ascending order of the sorted part. *)
Definition by_index (x y : N * (string * A)) : Prop := (fst x <= fst y)%N.

(** Every element of the sorted part carries the index of its key. *)
Definition indexed (l : list (N * (string * A))) : Prop :=
  Forall (fun x => array_index (fst (snd x)) = Some (fst x)) l.

(** Ascending order of two properties named by array indices. *)
Definition index_le (q q' : string * A) : Prop :=
  match array_index (fst q), array_index (fst q') with
  | Some i, Some j => (i <= j)%N
  | _, _ => False
  end.

(** The own properties in enumeration order. *)
Definition enumerate (o : Obj A) : Obj A :=
  (map snd (index_props o) ++ named_props o)%list.

End Enumeration.

(** ** [JSON.stringify] *)

(** [QuoteJSONString] (ECMA-262), per byte: the quote, the
    backslash and the control characters are escaped. *)
Definition json_escape (c : ascii) : string :=
  let n := code c in
  if N.eqb n 34 then bs ++ dq
  else if N.eqb n 92 then bs ++ bs
  else if N.eqb n 8 then bs ++ "b"
  else if N.eqb n 9 then bs ++ "t"
  else if N.eqb n 10 then bs ++ "n"
  else if N.eqb n 12 then bs ++ "f"
  else if N.eqb n 13 then bs ++ "r"
  else if N.ltb n 32 then bs ++ "u00" ++ hex2 false c
  else String c EmptyString.

(** The characters between the quotes: a surrogate on its own is
    written as the escape of its code unit, every other byte as
    [json_escape] has it. *)
Fixpoint json_body (s : string) : string :=
  match s with
  | EmptyString => EmptyString
  | String c s' =>
      match s' with
      | String d (String e r) =>
          if is_lone_surrogate c d
          then bs ++ "u" ++ hex4 (surrogate_unit d e) ++ json_body r
          else json_escape c ++ json_body s'
      | _ => json_escape c ++ json_body s'
      end
  end.

Definition json_quote (s : string) : string :=
  dq ++ json_body s ++ dq.

(** A property whose value is [undefined] is left out. *)
Definition json_value (v : Value) : option string :=
  match v with
  | VUndefined => None
  | VNull => Some "null"
  | VBool true => Some "true"
  | VBool false => Some "false"
  | VNum n => Some (number_to_string n)
  | VStr s => Some (json_quote s)
  end.

Definition json_member (p : string * string) : string :=
  json_quote (fst p) ++ ":" ++ snd p.

(** The serialised members, already in enumeration order, in braces. *)
Definition json_braces (members : list (string * string)) : string :=
  "{" ++ String.concat "," (map json_member members) ++ "}".

Fixpoint json_members (o : Obj Value) : list (string * string) :=
  match o with
  | [] => []
  | (k, v) :: o' =>
      match json_value v with
      | Some t => (k, t) :: json_members o'
      | None => json_members o'
      end
  end.

Definition json_object (o : Obj Value) : string :=
  json_braces (json_members (enumerate o)).

(** ** [String.prototype.trim]

    The white space removed at both ends; the ends of the one string the
    program trims are ASCII. *)
Definition is_space (c : ascii) : bool :=
  existsb (N.eqb (code c)) [9; 10; 11; 12; 13; 32]%N.

Fixpoint trim_start (s : string) : string :=
  match s with
  | EmptyString => EmptyString
  | String c s' => if is_space c then trim_start s' else s
  end.

Fixpoint trim_end (s : string) : string :=
  match s with
  | EmptyString => EmptyString
  | String c s' =>
      match trim_end s' with
      | EmptyString => if is_space c then EmptyString else String c EmptyString
      | t => String c t
      end
  end.

Definition trim (s : string) : string := trim_end (trim_start s).

End Js.

(* ================================================================== *)
(** * The cookie-capture shim (src/main.mjs, lines 93-121) *)
(* ================================================================== *)

Module Shim.
Import Js.

(** An error object of the provider, as [console.error] prints it. *)
Definition JsError : Type := string.

(** The object [{ value, options }] stored for a cookie.  The interface
    the handlers implement passes an options object on every call of
    [set]; a call without one is not modelled. *)
Record Entry : Type := { value : string; options : Obj Value }.

(** The object [cookies], keyed by cookie name. *)
Definition Jar : Type := Obj Entry.

(** [const cookies = {}] *)
Definition empty_jar : Jar := [].

(** ** The three handlers

    Each handler runs against the current [cookies] object and yields the
    value it returns together with the object afterwards. *)

(** [get(name) { return undefined }] *)
Definition get (name : string) (cookies : Jar) : Value * Jar :=
  (VUndefined, cookies).

(** [set(name, value, options) { cookies[name] = { value, options } }] *)
Definition set (name value : string) (options : Obj Value) (cookies : Jar)
  : Value * Jar :=
  (VUndefined, put cookies name {| value := value; options := options |}).

(** [remove(name, options) { }] *)
Definition remove (name : string) (options : Obj Value) (cookies : Jar)
  : Value * Jar :=
  (VUndefined, cookies).

(** ** The provider

    [serverSupabase.auth.verifyOtp] is code of the provider's library.
    From the shim's side it is a caller of the three handlers that in the
    end resolves to [{ error }]; what it does next may depend on what a
    handler returned. *)
Inductive Provider : Type :=
| Resolve (error : option JsError)
| CallGet (name : string) (k : Value -> Provider)
| CallSet (name value : string) (options : Obj Value) (k : Value -> Provider)
| CallRemove (name : string) (options : Obj Value) (k : Value -> Provider).

(** One handler call as it happened: the arguments, the [cookies] object
    the handler found, and the value it returned. *)
Inductive Call : Type :=
| GetCall (name : string) (before : Jar) (result : Value)
| SetCall (name value : string) (options : Obj Value) (before : Jar)
    (result : Value)
| RemoveCall (name : string) (options : Obj Value) (before : Jar)
    (result : Value).

(** [await serverSupabase.auth.verifyOtp(...)] with the handlers wired in:
    the error it resolves to and the [cookies] object at that point. *)
Fixpoint verifyOtp (p : Provider) (cookies : Jar) : option JsError * Jar :=
  match p with
  | Resolve error => (error, cookies)
  | CallGet name k =>
      let (r, cookies') := get name cookies in verifyOtp (k r) cookies'
  | CallSet name value options k =>
      let (r, cookies') := set name value options cookies in
      verifyOtp (k r) cookies'
  | CallRemove name options k =>
      let (r, cookies') := remove name options cookies in
      verifyOtp (k r) cookies'
  end.

(** The handler calls made during that same run, in order. *)
Fixpoint calls (p : Provider) (cookies : Jar) : list Call :=
  match p with
  | Resolve _ => []
  | CallGet name k =>
      let (r, cookies') := get name cookies in
      GetCall name cookies r :: calls (k r) cookies'
  | CallSet name value options k =>
      let (r, cookies') := set name value options cookies in
      SetCall name value options cookies r :: calls (k r) cookies'
  | CallRemove name options k =>
      let (r, cookies') := remove name options cookies in
      RemoveCall name options cookies r :: calls (k r) cookies'
  end.

(** The writes among the calls: name and stored entry. *)
Fixpoint writes (cs : list Call) : list (string * Entry) :=
  match cs with
  | [] => []
  | SetCall name value options _ _ :: cs' =>
      (name, {| value := value; options := options |}) :: writes cs'
  | _ :: cs' => writes cs'
  end.

(** The results handed back to the provider's reads. *)
Fixpoint read_results (cs : list Call) : list Value :=
  match cs with
  | [] => []
  | GetCall _ _ r :: cs' => r :: read_results cs'
  | _ :: cs' => read_results cs'
  end.

(** The object reached from [cookies] by the writes [ws], in order. *)
Definition accumulate (ws : list (string * Entry)) (cookies : Jar) : Jar :=
  fold_left (fun jar w => put jar (fst w) (snd w)) ws cookies.

(** The entry last written under [name] among [ws]. *)
Fixpoint last_write (ws : list (string * Entry)) (name : string)
  : option Entry :=
  match ws with
  | [] => None
  | (n, e) :: ws' =>
      match last_write ws' name with
      | Some e' => Some e'
      | None => if String.eqb n name then Some e else None
      end
  end.

(** The names of [l] not among [seen], each at its first occurrence. *)
Fixpoint first_occurrences (seen l : list string) : list string :=
  match l with
  | [] => []
  | x :: l' =>
      if existsb (String.eqb x) seen then first_occurrences seen l'
      else x :: first_occurrences (x :: seen) l'
  end.

(** Lines 93-121 as one operation: a fresh [cookies] object, one
    [verifyOtp], and the branch on [error]. *)
Definition captureSession (p : Provider) : JsError + Jar :=
  match verifyOtp p empty_jar with
  | (Some error, _) => inl error
  | (None, cookies) => inr cookies
  end.

(** The provider with its calls of [remove] taken out. *)
Fixpoint without_remove (p : Provider) : Provider :=
  match p with
  | Resolve error => Resolve error
  | CallGet name k => CallGet name (fun r => without_remove (k r))
  | CallSet name value options k =>
      CallSet name value options (fun r => without_remove (k r))
  | CallRemove name options k => without_remove (k VUndefined)
  end.

End Shim.

(* ================================================================== *)
(** * The snippet emitter (src/main.mjs, lines 131-163) *)
(* ================================================================== *)

Module Emitter.
Import Js Shim.

(** ** The printed text *)

(** [JSON.stringify] of an entry [{ value, options }]. *)
Definition json_entry (e : Entry) : string :=
  json_braces [("value", json_quote (value e));
               ("options", json_object (options e))].

(** [JSON.stringify(cookies)] *)
Definition JSON_stringify (cookies : Jar) : string :=
  json_braces (map (fun p => (fst p, json_entry (snd p))) (enumerate cookies)).

Definition lines (l : list string) : string := String.concat nl l.

(** The template literal up to the interpolation. *)
Definition template_head : string :=
  lines [""; "(() => {"; "  const cookies = "].

(** The template literal after the interpolation. *)
Definition template_tail : string :=
  lines [
    "";
    "";
    "  function writeCookies(cookies) {";
    "    for (var name in cookies) {";
    "      if (!cookies.hasOwnProperty(name)) continue;";
    "";
    "      var entry = cookies[name];";
    "      var value = entry.value;";
    "      var options = entry.options;";
    "";
    "      var cookieString = encodeURIComponent(name) + " ++ dq ++ "=" ++ dq
      ++ " + encodeURIComponent(value);";
    "";
    "      if (options.maxAge !== undefined) {";
    "        cookieString += " ++ dq ++ "; max-age=" ++ dq
      ++ " + options.maxAge;";
    "      }";
    "";
    "      if (options.path) {";
    "        cookieString += " ++ dq ++ "; path=" ++ dq ++ " + options.path;";
    "      }";
    "";
    "      if (options.sameSite) {";
    "        cookieString += " ++ dq ++ "; samesite=" ++ dq
      ++ " + options.sameSite;";
    "      }";
    "";
    "      document.cookie = cookieString;";
    "    }";
    "  }";
    "";
    "  writeCookies(cookies)";
    "})()";
    ""].

(** The argument of the [console.log] of lines 131-163: the template
    literal with [JSON.stringify(cookies)] in it, trimmed. *)
Definition render (cookies : Jar) : string :=
  trim (template_head ++ JSON_stringify cookies ++ template_tail).

(** The two ends of the printed text, around the serialised object. *)
Definition snippet_head : string := lines ["(() => {"; "  const cookies = "].

Definition snippet_tail : string := trim_end template_tail.

(** ** The snippet at work in the browser *)

(** The object the embedded literal evaluates to.  The literal lists the
    properties in the order [JSON.stringify] wrote them; a property that
    was [undefined] is not in the text, and a member named [__proto__]
    of an object literal defines no own property (ECMA-262, [__proto__]
    property names in object initializers). *)
Definition literal_options (o : Obj Value) : Obj Value :=
  filter (fun p => is_defined (snd p) && negb (String.eqb (fst p) proto_key))
    (enumerate o).

Definition literal_entry (e : Entry) : Entry :=
  {| value := value e; options := literal_options (options e) |}.

Definition literal_jar (cookies : Jar) : Jar :=
  map (fun p => (fst p, literal_entry (snd p))) (enumerate cookies).

(** The body of the loop, lines 139-155: the string assigned to
    [document.cookie] for the property [name] holding [entry]. *)
Definition cookieString (name : string) (entry : Entry) : string :=
  let options := options entry in
  let cookieString :=
    encodeURIComponent name ++ "=" ++ encodeURIComponent (value entry) in
  let cookieString :=
    if is_defined (get_prop options "maxAge")
    then cookieString ++ "; max-age=" ++ ToString (get_prop options "maxAge")
    else cookieString in
  let cookieString :=
    if ToBoolean (get_prop options "path")
    then cookieString ++ "; path=" ++ ToString (get_prop options "path")
    else cookieString in
  let cookieString :=
    if ToBoolean (get_prop options "sameSite")
    then cookieString ++ "; samesite=" ++ ToString (get_prop options "sameSite")
    else cookieString in
  cookieString.

(** The same for a property as enumerated: name and entry. *)
Definition cookie_of (p : string * Entry) : string :=
  cookieString (fst p) (snd p).

(** What running the snippet does: the strings assigned to
    [document.cookie], in order, and the exception that ended it, if
    any. *)
Record Effect : Type := { assigned : list string; thrown : option JsError }.

Definition not_a_function : JsError :=
  "TypeError: cookies.hasOwnProperty is not a function".

Definition uri_malformed : JsError := "URIError: URI malformed".

(** The two calls of [encodeURIComponent] of line 143 return. *)
Definition encodable (name : string) (entry : Entry) : bool :=
  well_formed name && well_formed (value entry).

(** Every name and value of the jar is well-formed. *)
Definition well_formed_jar (cookies : Jar) : bool :=
  forallb (fun q => encodable (fst q) (snd q)) cookies.

(** The [for-in] loop over the remaining property names.  The call
    [cookies.hasOwnProperty(name)] reaches [Object.prototype] unless
    [cookies] has an own property of that name, which is a cookie entry
    and cannot be called.  [encodeURIComponent] throws on a name or a
    value that is not well-formed, before anything is assigned for the
    entry; the entries before it have been assigned. *)
Fixpoint write_loop (cookies : Jar) (names : list string) : Effect :=
  match names with
  | [] => {| assigned := []; thrown := None |}
  | name :: names' =>
      if has_own cookies "hasOwnProperty"
      then {| assigned := []; thrown := Some not_a_function |}
      else if negb (has_own cookies name) then write_loop cookies names'
      else
        match get_own cookies name with
        | None => write_loop cookies names'
        | Some entry =>
            if negb (encodable name entry)
            then {| assigned := []; thrown := Some uri_malformed |}
            else
              let rest := write_loop cookies names' in
              {| assigned := cookieString name entry :: assigned rest;
                 thrown := thrown rest |}
        end
  end.

(** [writeCookies(cookies)] *)
Definition writeCookies (cookies : Jar) : Effect :=
  write_loop cookies (map fst (enumerate cookies)).

(** Running the snippet printed for [cookies]. *)
Definition run_snippet (cookies : Jar) : Effect :=
  writeCookies (literal_jar cookies).

End Emitter.

(* ================================================================== *)
(** * The command (src/main.mjs, lines 27-166) *)
(* ================================================================== *)

Module Cli.
Import Js Shim Emitter.

(** ** What the process does to the outside *)

Inductive NetCall : Type :=
| UsersSelect (url key email : string)
| GenerateLink (url key email : string)
| VerifyOtp (url key token_hash : string).

Inductive Event : Type :=
| Stdout (text : string)
| Stderr (text : string)
| Network (call : NetCall).

(** A computation emits events and either yields a value or has called
    [process.exit] with a status. *)
Definition Proc (A : Type) : Type := list Event * (Z + A).

Definition ret {A : Type} (a : A) : Proc A := ([], inr a).

Definition bind {A B : Type} (m : Proc A) (f : A -> Proc B) : Proc B :=
  match m with
  | (ev, inl status) => (ev, inl status)
  | (ev, inr a) => let (ev', r) := f a in ((ev ++ ev')%list, r)
  end.

Notation "x <- m ;; k" := (bind m (fun x => k))
  (at level 61, m at next level, right associativity).
Notation "m ;; k" := (bind m (fun _ => k))
  (at level 61, right associativity).

Definition console_log (text : string) : Proc unit := ([Stdout text], inr tt).
Definition console_error (text : string) : Proc unit := ([Stderr text], inr tt).
Definition process_exit {A : Type} (status : Z) : Proc A := ([], inl status).

(** [await] of a request: the call goes out, the response comes back. *)
Definition await {A : Type} (call : NetCall) (response : A) : Proc A :=
  ([Network call], inr response).

(** [if (c) { body }] *)
Definition when (c : bool) (body : Proc unit) : Proc unit :=
  if c then body else ret tt.

(** ** The inputs *)

(** The parsed arguments: [email] is required, the two flags are tested
    for truthiness only. *)
Record Args : Type := { email : string; skip_check : bool; dry_run : bool }.

(** A row of the [users] table, as far as the program reads it:
    [user.id] as the template literal prints it. *)
Record User : Type := { id : string }.

(** The surroundings of one run: [process.env] and the answers of the
    three remote operations, each a function of what the program sends. *)
Record World : Type := {
  env : string -> option string;
  users_select : string -> string -> string -> JsError + list User;
  generate_link : string -> string -> string -> JsError + string;
  verify_otp : string -> string -> string -> Provider
}.

(** [process.env.NAME]: a string, or [undefined] when the variable is
    not in the environment. *)
Definition process_env (w : World) (name : string) : Value :=
  match env w name with
  | Some s => VStr s
  | None => VUndefined
  end.

(** [a || b] *)
Definition js_or (a b : Value) : Value := if ToBoolean a then a else b.

(** [!a] *)
Definition js_not (a : Value) : bool := negb (ToBoolean a).

(** Lines 30-32. *)
Definition supabase_url (w : World) : Value :=
  js_or (process_env w "SUPABASE_URL") (process_env w "NEXT_PUBLIC_SUPABASE_URL").

Definition supabase_anon_key (w : World) : Value :=
  js_or (process_env w "SUPABASE_ANON_KEY")
        (process_env w "NEXT_PUBLIC_SUPABASE_ANON_KEY").

Definition service_role_key (w : World) : Value :=
  process_env w "SUPABASE_SERVICE_ROLE_KEY".

(** ** The messages *)

Definition config_message : string :=
  "Please set the SUPABASE_URL, SUPABASE_ANON_KEY, and SUPABASE_SERVICE_ROLE_KEY environment variables in `.env`.".

Definition jsSnippetInstructions : string :=
  String.concat nl [
    "// Please execute this JS snippet above on the site and refresh the page.";
    "// You may need to manually clear the cookies in your browser before executing this snippet if it did not work."].

(** [console.error(label, error)]: the two arguments, a space between. *)
Definition console_error2 (label : string) (error : JsError) : Proc unit :=
  console_error (label ++ " " ++ error).

(** ** [run] *)

(** Step 0, lines 49-68. *)
Definition check_user (w : World) (url key : string) (args : Args)
  : Proc unit :=
  when (negb (skip_check args)) (
    r <- await (UsersSelect url key (email args))
               (users_select w url key (email args)) ;;
    match r with
    | inl userError =>
        console_error2 "Error checking user existence:" userError ;;
        console_error "If you do not have a `users` table under the public schema with an `email` column, please use the --skip-check flag to bypass this check." ;;
        process_exit 1
    | inr usersData =>
        match usersData with
        | [] =>
            console_error ("User with email " ++ email args ++ " does not exist. Use --skip-check to bypass this check and let a new account be created automatically with the given email.") ;;
            process_exit 1
        | user :: _ =>
            console_log ("// Email: " ++ email args) ;;
            console_log ("// User ID: " ++ id user)
        end
    end).

(** Step 1, lines 77-87: the hashed token of a generated magic link. *)
Definition issue_token (w : World) (url key : string) (args : Args)
  : Proc string :=
  r <- await (GenerateLink url key (email args))
             (generate_link w url key (email args)) ;;
  match r with
  | inl generateLinkError =>
      console_error2 "Error generating magic link:" generateLinkError ;;
      process_exit 1
  | inr hashed_token => ret hashed_token
  end.

(** Step 2, lines 93-121. *)
Definition capture (w : World) (url anon_key hashed_token : string)
  : Proc Jar :=
  provider <- await (VerifyOtp url anon_key hashed_token)
                    (verify_otp w url anon_key hashed_token) ;;
  match captureSession provider with
  | inl error =>
      console_error2 "Error getting cookie from magic link hashed token:" error ;;
      process_exit 1
  | inr cookies => ret cookies
  end.

(** Lines 123-165. *)
Definition emit (cookies : Jar) : Proc unit :=
  console_log "" ;;
  console_log jsSnippetInstructions ;;
  console_log "" ;;
  console_log (render cookies) ;;
  console_log "" ;;
  console_log jsSnippetInstructions.

Definition run (w : World) (args : Args) : Proc unit :=
  let supabase_url := supabase_url w in
  let supabase_anon_key := supabase_anon_key w in
  let service_role_key := service_role_key w in
  when (js_not supabase_url || js_not supabase_anon_key
        || js_not service_role_key) (
    console_error config_message ;;
    process_exit 1) ;;
  check_user w (ToString supabase_url) (ToString service_role_key) args ;;
  when (dry_run args) (process_exit 0) ;;
  hashed_token <-
    issue_token w (ToString supabase_url) (ToString service_role_key) args ;;
  cookies <-
    capture w (ToString supabase_url) (ToString supabase_anon_key)
      hashed_token ;;
  emit cookies.

(** ** The finished process *)

Record Outcome : Type := { events : list Event; status : Z }.

(** [runMain(main)]: the process ends with the status given to
    [process.exit], or with 0 when [run] returns. *)
Definition runMain (w : World) (args : Args) : Outcome :=
  match run w args with
  | (ev, inl code) => {| events := ev; status := code |}
  | (ev, inr _) => {| events := ev; status := 0 |}
  end.

(** The three settings as the clients receive them. *)
Definition url_of (w : World) : string := ToString (supabase_url w).
Definition anon_key_of (w : World) : string := ToString (supabase_anon_key w).
Definition service_key_of (w : World) : string := ToString (service_role_key w).

(** The check of line 34 passes. *)
Definition configured (w : World) : bool :=
  ToBoolean (supabase_url w) && ToBoolean (supabase_anon_key w)
  && ToBoolean (service_role_key w).

(** The variable [name] gives no value: it is not in the environment,
    or it is there and empty. *)
Definition missing (w : World) (name : string) : Prop :=
  env w name = None \/ env w name = Some "".

(** The variable [name] is set to a non-empty string. *)
Definition filled (w : World) (name : string) : Prop :=
  exists s, env w name = Some s /\ s <> "".

(** The same surroundings, the provider never calling [remove]. *)
Definition world_without_remove (w : World) : World :=
  {| env := env w;
     users_select := users_select w;
     generate_link := generate_link w;
     verify_otp := fun url key token =>
       without_remove (verify_otp w url key token) |}.

(** The lines written to the output by lines 128-165. *)
Definition output_block (cookies : Jar) : list string :=
  [""; jsSnippetInstructions; ""; render cookies; "";
   jsSnippetInstructions].

(** A text is a snippet when it is the rendering of some jar. *)
Definition is_snippet (text : string) : Prop :=
  exists cookies, text = render cookies.

Fixpoint stdout (ev : list Event) : list string :=
  match ev with
  | [] => []
  | Stdout t :: ev' => t :: stdout ev'
  | _ :: ev' => stdout ev'
  end.

Fixpoint stderr (ev : list Event) : list string :=
  match ev with
  | [] => []
  | Stderr t :: ev' => t :: stderr ev'
  | _ :: ev' => stderr ev'
  end.

Fixpoint network (ev : list Event) : list NetCall :=
  match ev with
  | [] => []
  | Network c :: ev' => c :: network ev'
  | _ :: ev' => network ev'
  end.

End Cli.

(* ================================================================== *)
(** * The earlier revision of the command (src/unnamed/part_000) *)
(* ================================================================== *)

(** The same file before the user check and the two flags were added:
    the configuration check, the issuer, the shim and the template are
    the same; the text around the snippet differs and the template is
    printed as it stands, with its first and last line break. *)
Module Earlier.
Import Js Shim Emitter Cli.

(** The argument of the [console.log] of lines 91-123. *)
Definition snippet_text (cookies : Jar) : string :=
  template_head ++ JSON_stringify cookies ++ template_tail.

(** Lines 87-125. *)
Definition emit (cookies : Jar) : Proc unit :=
  console_log "// Please execute the following JS snippet in the site, and refresh the page to sign in as the user:" ;;
  console_log "" ;;
  console_log "// --------" ;;
  console_log "" ;;
  console_log (snippet_text cookies) ;;
  console_log "" ;;
  console_log "// --------".

Definition run (w : World) (email : string) : Proc unit :=
  let args := {| email := email; skip_check := true; dry_run := false |} in
  let supabase_url := supabase_url w in
  let supabase_anon_key := supabase_anon_key w in
  let service_role_key := service_role_key w in
  when (js_not supabase_url || js_not supabase_anon_key
        || js_not service_role_key) (
    console_error config_message ;;
    process_exit 1) ;;
  hashed_token <-
    issue_token w (ToString supabase_url) (ToString service_role_key) args ;;
  cookies <-
    capture w (ToString supabase_url) (ToString supabase_anon_key)
      hashed_token ;;
  emit cookies.

Definition runMain (w : World) (email : string) : Outcome :=
  match run w email with
  | (ev, inl code) => {| events := ev; status := code |}
  | (ev, inr _) => {| events := ev; status := 0 |}
  end.

End Earlier.

(* ================================================================== *)
(** * The specification's side *)
(* ================================================================== *)

Module Spec.
Import Js Shim.

(** The attributes of a CapturedCookie that the emitter renders:
    [{ maxAge?: number, path?: string, sameSite?: string, ... }]. *)
Record Attributes : Type := {
  maxAge : option Z;
  path : option string;
  sameSite : option string
}.

(** The three attributes as an [options] object carries them. *)
Definition attributes_of (options : Obj Value) : Attributes :=
  {| maxAge := match get_prop options "maxAge" with
               | VNum n => Some n
               | _ => None
               end;
     path := match get_prop options "path" with
             | VStr s => Some s
             | _ => None
             end;
     sameSite := match get_prop options "sameSite" with
                 | VStr s => Some s
                 | _ => None
                 end |}.

(** [options] holds the three attributes at their declared types: each
    is absent or [undefined], or a number (a safe integer), a string
    and a string. *)
Definition well_typed (options : Obj Value) : bool :=
  match get_prop options "maxAge" with
  | VUndefined => true
  | VNum n => safe_integer n
  | _ => false
  end
  && match get_prop options "path" with
     | VUndefined | VStr _ => true
     | _ => false
     end
  && match get_prop options "sameSite" with
     | VUndefined | VStr _ => true
     | _ => false
     end.

(** Percent-encoding, in the words of section 8: a value is encoded
    where it contains reserved characters.  The characters written as
    they are, are the letters, the digits and the marks of a URI
    component; every other byte is a percent sign and its two
    hexadecimal digits, in upper case. *)
Definition kept_characters : string :=
  "ABCDEFGHIJKLMNOPQRSTUVWXYZabcdefghijklmnopqrstuvwxyz0123456789-_.!~*'()".

Definition hexadecimal_digits : string := "0123456789ABCDEF".

Fixpoint is_among (c : ascii) (s : string) : bool :=
  match s with
  | EmptyString => false
  | String x s' => if Ascii.eqb c x then true else is_among c s'
  end.

Definition digit_at (n : nat) : string :=
  match String.get n hexadecimal_digits with
  | Some d => String d EmptyString
  | None => EmptyString
  end.

Definition percent (c : ascii) : string :=
  if is_among c kept_characters then String c EmptyString
  else "%" ++ digit_at (Nat.div (nat_of_ascii c) 16)
           ++ digit_at (Nat.modulo (nat_of_ascii c) 16).

Fixpoint percentEncode (s : string) : string :=
  match s with
  | EmptyString => EmptyString
  | String c s' => percent c ++ percentEncode s'
  end.

(** One attribute, rendered when present. *)
Definition attribute (label : string) (v : option string) : string :=
  match v with
  | Some s => "; " ++ label ++ "=" ++ s
  | None => ""
  end.

Definition non_empty (v : option string) : option string :=
  match v with
  | Some (String _ _ as s) => Some s
  | _ => None
  end.

(** Section 4.3: [percentEncode(name) + "=" + percentEncode(value)], then
    [; max-age=<n>] if max-age is defined, [; path=<p>] if non-empty,
    [; samesite=<s>] if non-empty. *)
Definition assignment (name value : string) (a : Attributes) : string :=
  percentEncode name ++ "=" ++ percentEncode value
  ++ attribute "max-age" (option_map number_to_string (maxAge a))
  ++ attribute "path" (non_empty (path a))
  ++ attribute "samesite" (non_empty (sameSite a)).

(** The assignment the specification gives for a jar entry. *)
Definition assignment_of (p : string * Entry) : string :=
  assignment (fst p) (value (snd p)) (attributes_of (options (snd p))).

(** The jar of the example of section 8. *)
Definition example_jar : Jar :=
  [("sb-access-token",
    {| value := "abc123";
       options := [("maxAge", VNum 3600); ("path", VStr "/");
                   ("sameSite", VStr "lax")] |})].

(** A jar whose name, value and path hold reserved characters. *)
Definition reserved_jar : Jar :=
  [("a b",
    {| value := "x;y=z/é";
       options := [("maxAge", VNum 0); ("path", VStr "/a b");
                   ("sameSite", VStr "lax"); ("secure", VBool true)] |})].

(** The options of an entry are an object with the three attributes at
    their declared types. *)
Definition typed (q : string * Entry) : Prop :=
  is_object (options (snd q)) /\ well_typed (options (snd q)) = true.

End Spec.

(* ================================================================== *)
(** * Concrete runs *)
(* ================================================================== *)

Module Scenario.
Import Js Shim Emitter Cli.

(** An environment given by its variables. *)
Definition env_of (vars : list (string * string)) (name : string)
  : option string :=
  get_own vars name.

Definition full_env : string -> option string :=
  env_of [("SUPABASE_URL", "https://project.supabase.co");
          ("SUPABASE_ANON_KEY", "anon-key");
          ("SUPABASE_SERVICE_ROLE_KEY", "service-key")].

(** A directory that knows every email, an issuer that answers
    [tok_1] for [user@example.com], and a verifier given by [provider]
    for that token. *)
Definition world (vars : string -> option string) (provider : Provider)
  : World :=
  {| env := vars;
     users_select := fun _ _ _ => inr [{| id := "42" |}];
     generate_link := fun _ _ email =>
       if String.eqb email "user@example.com" then inr "tok_1"
       else inl "AuthApiError: user not found";
     verify_otp := fun _ _ token =>
       if String.eqb token "tok_1" then provider
       else Resolve (Some "AuthApiError: token has expired or is invalid") |}.

Definition args_for (email : string) : Args :=
  {| email := email; skip_check := false; dry_run := false |}.

(** The verifier of the end-to-end scenario of section 8: cookie [A]
    with value [1], then cookie [B] with value [2] and path [/app]. *)
Definition provider_AB : Provider :=
  CallSet "A" "1" [] (fun _ =>
  CallSet "B" "2" [("path", VStr "/app")] (fun _ =>
  Resolve None)).

Definition jar_AB : Jar :=
  [("A", {| value := "1"; options := [] |});
   ("B", {| value := "2"; options := [("path", VStr "/app")] |})].

(** [JSON.stringify] of [jar_AB]. *)
Definition json_AB : string :=
  "{" ++ dq ++ "A" ++ dq ++ ":{" ++ dq ++ "value" ++ dq ++ ":" ++ dq ++ "1"
  ++ dq ++ "," ++ dq ++ "options" ++ dq ++ ":{}}," ++ dq ++ "B" ++ dq ++ ":{"
  ++ dq ++ "value" ++ dq ++ ":" ++ dq ++ "2" ++ dq ++ "," ++ dq ++ "options"
  ++ dq ++ ":{" ++ dq ++ "path" ++ dq ++ ":" ++ dq ++ "/app" ++ dq ++ "}}}".

(** A verifier that writes a cookie and then reports an error. *)
Definition provider_failing : Provider :=
  CallSet "sb-access-token" "abc123" [("maxAge", VNum 3600)] (fun _ =>
  Resolve (Some "AuthApiError: Email link is invalid or has expired")).

(** A verifier that writes cookie [b], then cookie [1]. *)
Definition provider_b1 : Provider :=
  CallSet "b" "x" [] (fun _ => CallSet "1" "y" [] (fun _ => Resolve None)).

Definition jar_b1 : Jar :=
  [("b", {| value := "x"; options := [] |});
   ("1", {| value := "y"; options := [] |})].

(** [JSON.stringify] of [jar_b1]. *)
Definition json_b1 : string :=
  "{" ++ dq ++ "1" ++ dq ++ ":{" ++ dq ++ "value" ++ dq ++ ":" ++ dq ++ "y"
  ++ dq ++ "," ++ dq ++ "options" ++ dq ++ ":{}}," ++ dq ++ "b" ++ dq ++ ":{"
  ++ dq ++ "value" ++ dq ++ ":" ++ dq ++ "x" ++ dq ++ "," ++ dq ++ "options"
  ++ dq ++ ":{}}}".

(** A verifier that writes one cookie, named [__proto__]. *)
Definition provider_proto : Provider :=
  CallSet "__proto__" "x" [] (fun _ => Resolve None).

(** A verifier that writes [a], reads [a], clears [a], writes [a] again
    and reads it once more. *)
Definition provider_rw : Provider :=
  CallSet "a" "1" [] (fun _ =>
  CallGet "a" (fun _ =>
  CallRemove "a" [] (fun _ =>
  CallSet "a" "2" [("path", VStr "/")] (fun _ =>
  CallGet "a" (fun _ => Resolve None))))).

(** [SUPABASE_URL] set to the empty string next to a filled
    [NEXT_PUBLIC_SUPABASE_URL]. *)
Definition env_empty_url : string -> option string :=
  env_of [("SUPABASE_URL", "");
          ("NEXT_PUBLIC_SUPABASE_URL", "https://next.supabase.co");
          ("SUPABASE_ANON_KEY", "anon-key");
          ("SUPABASE_SERVICE_ROLE_KEY", "service-key")].

(** [SUPABASE_URL] set to the empty string and no other URL. *)
Definition env_only_empty_url : string -> option string :=
  env_of [("SUPABASE_URL", "");
          ("SUPABASE_ANON_KEY", "anon-key");
          ("SUPABASE_SERVICE_ROLE_KEY", "service-key")].

End Scenario.

(* ================================================================== *)
(** * The course of a run *)
(* ================================================================== *)

Module Flow.
Import Js Shim Emitter Cli.

(** The three requests as [run] sends them. *)
Definition users_call (w : World) (args : Args) : NetCall :=
  UsersSelect (url_of w) (service_key_of w) (email args).

Definition link_call (w : World) (args : Args) : NetCall :=
  GenerateLink (url_of w) (service_key_of w) (email args).

Definition verify_call (w : World) (token : string) : NetCall :=
  VerifyOtp (url_of w) (anon_key_of w) token.

(** The answer of the issuer to the request of this run. *)
Definition issued (w : World) (args : Args) : JsError + string :=
  generate_link w (url_of w) (service_key_of w) (email args).

(** The requests of a run that nothing stops, in order: the user lookup
    unless skipped, then, unless the run is a dry run, the link and the
    verification of the token the link gave. *)
Definition plan (w : World) (args : Args) : list NetCall :=
  ((if skip_check args then [] else [users_call w args])
   ++ (if dry_run args then []
       else link_call w args
            :: match issued w args with
               | inr token => [verify_call w token]
               | inl _ => []
               end))%list.

Definition is_prefix {A : Type} (l full : list A) : Prop :=
  exists rest, full = (l ++ rest)%list.

(** The two comment lines of a user check that passes: none when the
    check is skipped, those of the first row found otherwise. *)
Definition user_lines (w : World) (args : Args) : option (list string) :=
  if skip_check args then Some []
  else
    match users_select w (url_of w) (service_key_of w) (email args) with
    | inr (user :: _) =>
        Some ["// Email: " ++ email args; "// User ID: " ++ id user]
    | _ => None
    end.

(** What the user check does when it passes: nothing when skipped, the
    lookup and the two comment lines of the first row otherwise. *)
Definition check_events (w : World) (args : Args) : list Event :=
  if skip_check args then []
  else
    match users_select w (url_of w) (service_key_of w) (email args) with
    | inr (user :: _) =>
        [Network (users_call w args);
         Stdout ("// Email: " ++ email args);
         Stdout ("// User ID: " ++ id user)]
    | _ => [Network (users_call w args)]
    end.

(** The same surroundings with the verifier [p], whatever the token. *)
Definition with_provider (w : World) (p : Provider) : World :=
  {| env := env w;
     users_select := users_select w;
     generate_link := generate_link w;
     verify_otp := fun _ _ _ => p |}.

(** The lines the earlier revision prints around and with the snippet. *)
Definition earlier_block (cookies : Jar) : list string :=
  ["// Please execute the following JS snippet in the site, and refresh the page to sign in as the user:";
   ""; "// --------"; ""; Earlier.snippet_text cookies; ""; "// --------"].

(** [c] occurs in [s]. *)
Fixpoint occurs (c : ascii) (s : string) : bool :=
  match s with
  | EmptyString => false
  | String x s' => Ascii.eqb x c || occurs c s'
  end.

(** Every character of [s] passes [f]. *)
Fixpoint all_chars (f : ascii -> bool) (s : string) : bool :=
  match s with
  | EmptyString => true
  | String x s' => f x && all_chars f s'
  end.

(** The characters [encodeURIComponent] writes: the unreserved ones and
    the percent sign. *)
Definition plain (c : ascii) : bool := uriUnescaped c || Ascii.eqb c "%".

(** The value of a hexadecimal digit. *)
Definition hex_value (c : ascii) : option N :=
  if is_digit c then Some (code c - 48)%N
  else if in_range 65 70 c then Some (code c - 55)%N
  else if in_range 97 102 c then Some (code c - 87)%N
  else None.

(** Reading the escapes back: [%XX] is the byte [XX]. *)
Fixpoint unescape (s : string) : string :=
  match s with
  | EmptyString => EmptyString
  | String c s' =>
      match s' with
      | String a (String b r) =>
          match (if Ascii.eqb c "%" then hex_value a else None), hex_value b with
          | Some x, Some y => String (ascii_of_N (16 * x + y)) (unescape r)
          | _, _ => String c (unescape s')
          end
      | _ => String c (unescape s')
      end
  end.

(** Worlds for trying the properties: the configuration complete, the
    directory, the issuer and the verifier answering as given. *)
Definition world_of (users : JsError + list User) (link : JsError + string)
    (provider : Provider) : World :=
  {| env := Scenario.full_env;
     users_select := fun _ _ _ => users;
     generate_link := fun _ _ _ => link;
     verify_otp := fun _ _ _ => provider |}.

Definition one_user : JsError + list User :=
  inr [{| id := "42" |}; {| id := "43" |}].

Definition dry_args (address : string) : Args :=
  {| email := address; skip_check := false; dry_run := true |}.

(** A verifier that reads and clears but writes nothing. *)
Definition provider_silent : Provider :=
  CallGet "sb-auth-token" (fun _ =>
  CallRemove "sb-auth-token" [] (fun _ => Resolve None)).

(** A verifier that writes [hasOwnProperty] next to another cookie. *)
Definition provider_shadow : Provider :=
  CallSet "sid" "1" [] (fun _ =>
  CallSet "hasOwnProperty" "x" [] (fun _ => Resolve None)).

Definition jar_shadow : Jar :=
  [("sid", {| value := "1"; options := [] |});
   ("hasOwnProperty", {| value := "x"; options := [] |})].

(** A verifier that writes [7], [sid], [3], and [sid] again. *)
Definition provider_mixed : Provider :=
  CallSet "7" "a" [] (fun _ =>
  CallSet "sid" "b" [("path", VStr "/")] (fun _ =>
  CallSet "3" "c" [] (fun _ =>
  CallSet "sid" "d" [("maxAge", VNum 0)] (fun _ => Resolve None)))).

Definition jar_mixed : Jar :=
  [("7", {| value := "a"; options := [] |});
   ("sid", {| value := "d"; options := [("maxAge", VNum 0)] |});
   ("3", {| value := "c"; options := [] |})].

(** The high surrogate U+D800 alone, as the three bytes [ED A0 80]. *)
Definition lone_surrogate : string :=
  String (ascii_of_N 237) (String (ascii_of_N 160)
    (String (ascii_of_N 128) EmptyString)).

(** A verifier that writes [a], then [b] with a value that holds a lone
    surrogate, then [c]. *)
Definition provider_surrogate : Provider :=
  CallSet "a" "1" [("path", VStr "/")] (fun _ =>
  CallSet "b" ("x" ++ lone_surrogate) [] (fun _ =>
  CallSet "c" "3" [] (fun _ => Resolve None))).

Definition jar_surrogate : Jar :=
  [("a", {| value := "1"; options := [("path", VStr "/")] |});
   ("b", {| value := "x" ++ lone_surrogate; options := [] |});
   ("c", {| value := "3"; options := [] |})].

End Flow.

(* ================================================================== *)
(** * Properties *)
(* ================================================================== *)

(** ** The JavaScript fragment on small inputs *)

Example encode_reserved :
  Js.encodeURIComponent "a b;c=d/é~" = "a%20b%3Bc%3Dd%2F%C3%A9~".
Proof. reflexivity. Qed.

Example number_examples :
  map Js.number_to_string [0; 3600; -5] = ["0"; "3600"; "-5"].
Proof. reflexivity. Qed.

Example enumerate_example :
  map fst (Js.enumerate [("b", 1); ("10", 2); ("a", 3); ("2", 4); ("01", 5)])
  = ["2"; "10"; "b"; "a"; "01"].
Proof. reflexivity. Qed.

Example put_under_proto :
  Js.put [("a", 1)] "__proto__" 2 = [("a", 1)].
Proof. reflexivity. Qed.

Example trim_example : Js.trim (Js.nl ++ " (a b) " ++ Js.nl) = "(a b)".
Proof. reflexivity. Qed.

(* ================================================================== *)
(** * Facts about objects *)
(* ================================================================== *)

Module ObjFacts.
Import Js.

Section WithA.
Context {A : Type}.
Implicit Types (o : Obj A) (k : string) (v : A).

Lemma has_own_in o k : has_own o k = true <-> In k (keys o).
Proof.
  unfold has_own, keys. rewrite existsb_exists. split.
  - intros [[k' v] [Hin Heq]]. apply String.eqb_eq in Heq. simpl in Heq.
    subst. apply (in_map fst) in Hin. exact Hin.
  - intros Hin. apply in_map_iff in Hin. destruct Hin as [[k' v] [Hk Hin]].
    simpl in Hk. subst. exists (k, v). split; [exact Hin|].
    apply String.eqb_refl.
Qed.

Lemma has_own_false o k : has_own o k = false <-> ~ In k (keys o).
Proof.
  rewrite <- has_own_in. destruct (has_own o k); split; intros; congruence.
Qed.

Lemma get_own_none o k : get_own o k = None <-> ~ In k (keys o).
Proof.
  induction o as [|[k' v'] o IH]; simpl.
  - tauto.
  - destruct (String.eqb_spec k' k) as [->|Hne].
    + split; [discriminate | intros H; exfalso; apply H; now left].
    + rewrite IH. tauto.
Qed.

Lemma get_own_app o1 o2 k :
  get_own (o1 ++ o2)%list k =
  match get_own o1 k with Some v => Some v | None => get_own o2 k end.
Proof.
  induction o1 as [|[k' v'] o1 IH]; simpl; [reflexivity|].
  destruct (String.eqb k' k); [reflexivity | exact IH].
Qed.

Lemma keys_replace o k v : keys (replace_own o k v) = keys o.
Proof.
  induction o as [|[k' v'] o IH]; simpl; [reflexivity|].
  destruct (String.eqb k' k); simpl; [reflexivity | now rewrite IH].
Qed.

Lemma get_own_replace_same o k v :
  In k (keys o) -> get_own (replace_own o k v) k = Some v.
Proof.
  induction o as [|[k' v'] o IH]; simpl; [tauto|].
  intros Hin. destruct (String.eqb_spec k' k) as [->|Hne]; simpl.
  - now rewrite String.eqb_refl.
  - apply String.eqb_neq in Hne as Hb. rewrite Hb. apply IH.
    destruct Hin; [contradiction | assumption].
Qed.

Lemma get_own_replace_other o k k' v :
  k' <> k -> get_own (replace_own o k v) k' = get_own o k'.
Proof.
  intros Hne. induction o as [|[k0 v0] o IH]; simpl; [reflexivity|].
  destruct (String.eqb_spec k0 k) as [->|Hne0]; simpl.
  - apply not_eq_sym, String.eqb_neq in Hne. now rewrite Hne.
  - destruct (String.eqb k0 k'); [reflexivity | exact IH].
Qed.

(** Writing under [__proto__] leaves the own properties as they were. *)
Lemma put_proto o v : put o proto_key v = o.
Proof. reflexivity. Qed.

Lemma keys_put o k v :
  keys (put o k v) =
  if String.eqb k proto_key then keys o
  else if has_own o k then keys o else (keys o ++ [k])%list.
Proof.
  unfold put. destruct (String.eqb k proto_key); [reflexivity|].
  destruct (has_own o k).
  - apply keys_replace.
  - unfold keys. now rewrite map_app.
Qed.

(** Any other key holds the value last written under it. *)
Lemma get_own_put_same o k v :
  k <> proto_key -> get_own (put o k v) k = Some v.
Proof.
  intros Hne. unfold put. apply String.eqb_neq in Hne. rewrite Hne.
  destruct (has_own o k) eqn:Hown.
  - apply get_own_replace_same, has_own_in, Hown.
  - rewrite get_own_app. apply has_own_false, get_own_none in Hown.
    rewrite Hown. simpl. now rewrite String.eqb_refl.
Qed.

Lemma get_own_put_other o k k' v :
  k' <> k -> get_own (put o k v) k' = get_own o k'.
Proof.
  intros Hne. unfold put. destruct (String.eqb k proto_key); [reflexivity|].
  destruct (has_own o k).
  - now apply get_own_replace_other.
  - rewrite get_own_app. simpl.
    apply not_eq_sym, String.eqb_neq in Hne. rewrite Hne.
    now destruct (get_own o k').
Qed.

Lemma is_object_put o k v : is_object o -> is_object (put o k v).
Proof.
  unfold is_object. intros Hnd. rewrite keys_put.
  destruct (String.eqb k proto_key); [exact Hnd|].
  destruct (has_own o k) eqn:Hown; [exact Hnd|].
  apply has_own_false in Hown.
  apply NoDup_app; [exact Hnd | repeat constructor; intros [] | ].
  intros x Hx [<-|[]]. contradiction.
Qed.

Lemma no_proto_put o k v :
  ~ In proto_key (keys o) -> ~ In proto_key (keys (put o k v)).
Proof.
  intros Hno. rewrite keys_put.
  destruct (String.eqb_spec k proto_key) as [->|Hne]; [exact Hno|].
  destruct (has_own o k); [exact Hno|].
  rewrite in_app_iff. intros [H|[H|[]]]; [contradiction | congruence].
Qed.

(** One property per key: the key decides the property. *)
Lemma get_own_in o k v :
  is_object o -> In (k, v) o -> get_own o k = Some v.
Proof.
  unfold is_object, keys.
  induction o as [|[k' v'] o IH]; simpl; [tauto|].
  intros Hnd Hin. inversion Hnd as [|? ? Hnotin Hnd']; subst.
  destruct Hin as [Heq|Hin].
  - inversion Heq; subst. now rewrite String.eqb_refl.
  - destruct (String.eqb_spec k' k) as [->|Hne].
    + exfalso. apply Hnotin. apply (in_map fst) in Hin. exact Hin.
    + now apply IH.
Qed.

End WithA.
End ObjFacts.

(* ================================================================== *)
(** * Facts about property order *)
(* ================================================================== *)

Module OrderFacts.
Import Js ObjFacts.

Section WithA.
Context {A : Type}.
Implicit Types (o : Obj A) (k : string) (p : string * A).

Lemma insert_index_hd i p l x :
  HdRel by_index x l -> (fst x <= i)%N -> HdRel by_index x (insert_index i p l).
Proof.
  intros Hhd Hle. destruct l as [|[j q] l]; simpl.
  - constructor. exact Hle.
  - destruct (N.leb i j); constructor; [exact Hle|].
    inversion Hhd; assumption.
Qed.

Lemma insert_index_sorted i p l :
  Sorted by_index l -> Sorted by_index (insert_index i p l).
Proof.
  induction l as [|[j q] l IH]; simpl; intros Hs.
  - repeat constructor.
  - destruct (N.leb_spec i j) as [Hle|Hlt].
    + constructor; [exact Hs | constructor; exact Hle].
    + inversion Hs as [|? ? Hs' Hhd]; subst. constructor; [now apply IH|].
      apply insert_index_hd; [exact Hhd | unfold by_index; simpl; lia].
Qed.

Lemma index_props_sorted o : Sorted by_index (index_props o).
Proof.
  induction o as [|p o IH]; simpl; [constructor|].
  destruct (array_index (fst p)); [now apply insert_index_sorted | exact IH].
Qed.

Lemma insert_index_indexed i p l :
  array_index (fst p) = Some i -> indexed l -> indexed (insert_index i p l).
Proof.
  intros Hp. induction l as [|[j q] l IH]; simpl; intros Hl.
  - repeat constructor. exact Hp.
  - destruct (N.leb i j).
    + constructor; [exact Hp | exact Hl].
    + inversion Hl; subst. constructor; [assumption | now apply IH].
Qed.

Lemma index_props_indexed o : indexed (index_props o).
Proof.
  induction o as [|p o IH]; simpl; [constructor|].
  destruct (array_index (fst p)) eqn:Hp; [|exact IH].
  now apply insert_index_indexed.
Qed.

Lemma insert_index_perm i p l :
  Permutation (map snd (insert_index i p l)) (p :: map snd l).
Proof.
  induction l as [|[j q] l IH]; simpl; [reflexivity|].
  destruct (N.leb i j); simpl; [reflexivity|].
  rewrite IH. apply perm_swap.
Qed.

(** Enumeration reorders the properties and does nothing else. *)
Lemma enumerate_perm o : Permutation (enumerate o) o.
Proof.
  unfold enumerate, named_props, is_index.
  induction o as [|p o IH]; simpl; [reflexivity|].
  destruct (array_index (fst p)) eqn:Hp; simpl.
  - rewrite insert_index_perm. simpl. now rewrite IH.
  - rewrite <- Permutation_middle. now rewrite IH.
Qed.

Lemma keys_enumerate_perm o : Permutation (keys (enumerate o)) (keys o).
Proof. unfold keys. apply Permutation_map, enumerate_perm. Qed.

Lemma is_object_enumerate o : is_object o -> is_object (enumerate o).
Proof.
  unfold is_object. intros H.
  eapply Permutation_NoDup; [symmetry; apply keys_enumerate_perm | exact H].
Qed.

Lemma in_keys_enumerate o k : In k (keys (enumerate o)) <-> In k (keys o).
Proof.
  split; apply Permutation_in;
    [apply keys_enumerate_perm | symmetry; apply keys_enumerate_perm].
Qed.

Lemma has_own_enumerate o k : has_own (enumerate o) k = has_own o k.
Proof.
  destruct (has_own o k) eqn:H.
  - apply has_own_in, in_keys_enumerate, has_own_in, H.
  - apply has_own_false. rewrite in_keys_enumerate. apply has_own_false, H.
Qed.

Lemma index_props_no_index o :
  (forall k, In k (keys o) -> is_index k = false) -> index_props o = [].
Proof.
  unfold is_index, keys.
  induction o as [|p o IH]; simpl; intros Hk; [reflexivity|].
  pose proof (Hk (fst p) (or_introl eq_refl)) as Hp.
  destruct (array_index (fst p)); [discriminate|].
  apply IH. intros k Hin. apply Hk. now right.
Qed.

Lemma named_props_no_index o :
  (forall k, In k (keys o) -> is_index k = false) -> named_props o = o.
Proof.
  unfold named_props, keys.
  induction o as [|p o IH]; simpl; intros Hk; [reflexivity|].
  rewrite (Hk (fst p) (or_introl eq_refl)). simpl. f_equal.
  apply IH. intros k Hin. apply Hk. now right.
Qed.

(** Without array indices among the names, enumeration order is
    creation order. *)
Lemma enumerate_named o :
  (forall k, In k (keys o) -> is_index k = false) -> enumerate o = o.
Proof.
  intros Hk. unfold enumerate.
  now rewrite index_props_no_index, named_props_no_index.
Qed.

Lemma index_props_app_named l (named : Obj A) :
  (forall p, In p named -> is_index (fst p) = false) ->
  index_props (l ++ named)%list = index_props l.
Proof.
  intros Hn. induction l as [|p l IH]; simpl.
  - induction named as [|q named IHn]; simpl; [reflexivity|].
    pose proof (Hn q (or_introl eq_refl)) as Hq. unfold is_index in Hq.
    destruct (array_index (fst q)); [discriminate|].
    apply IHn. intros p Hp. apply Hn. now right.
  - now rewrite IH.
Qed.

Lemma index_props_of_sorted (l : list (N * (string * A))) :
  Sorted by_index l -> indexed l -> index_props (map snd l) = l.
Proof.
  induction l as [|[i p] l IH]; simpl; intros Hs Hi; [reflexivity|].
  inversion Hs as [|? ? Hs' Hhd]; subst. inversion Hi as [|? ? Hx Hi']; subst.
  simpl in Hx. rewrite Hx, (IH Hs' Hi').
  destruct l as [|[j q] l]; simpl; [reflexivity|].
  inversion Hhd as [|? ? Hle]; subst. unfold by_index in Hle. simpl in Hle.
  apply N.leb_le in Hle. now rewrite Hle.
Qed.

Lemma named_props_of_indexed (l : list (N * (string * A))) :
  indexed l -> named_props (map snd l) = [].
Proof.
  unfold named_props, is_index.
  induction l as [|[i p] l IH]; simpl; intros Hi; [reflexivity|].
  inversion Hi as [|? ? Hx Hi']; subst. simpl in Hx. rewrite Hx. simpl.
  now apply IH.
Qed.

Lemma named_props_idem o : named_props (named_props o) = named_props o.
Proof.
  unfold named_props. induction o as [|p o IH]; simpl; [reflexivity|].
  destruct (negb (is_index (fst p))) eqn:Hp; simpl; [|exact IH].
  now rewrite Hp, IH.
Qed.

Lemma named_props_not_index o p :
  In p (named_props o) -> is_index (fst p) = false.
Proof.
  unfold named_props. rewrite filter_In. intros [_ H].
  now apply negb_true_iff in H.
Qed.

Lemma index_props_enumerate o : index_props (enumerate o) = index_props o.
Proof.
  unfold enumerate. rewrite index_props_app_named.
  - apply index_props_of_sorted;
      [apply index_props_sorted | apply index_props_indexed].
  - apply named_props_not_index.
Qed.

Lemma named_props_enumerate o : named_props (enumerate o) = named_props o.
Proof.
  unfold enumerate, named_props. rewrite filter_app.
  fold (named_props (map snd (index_props o))).
  rewrite named_props_of_indexed by apply index_props_indexed.
  simpl. apply named_props_idem.
Qed.

(** Enumerating twice changes nothing: an object rebuilt in
    enumeration order enumerates in the order it was built. *)
Lemma enumerate_idem o : enumerate (enumerate o) = enumerate o.
Proof.
  unfold enumerate at 1.
  now rewrite index_props_enumerate, named_props_enumerate.
Qed.

(** The sorted part holds every property named by an array index, and
    holds them in ascending order of the indices. *)
Lemma index_props_filter_perm o :
  Permutation (map snd (index_props o))
    (filter (fun q => is_index (fst q)) o).
Proof.
  unfold is_index. induction o as [|q o IH]; simpl; [reflexivity|].
  destruct (array_index (fst q)); simpl; [|exact IH].
  rewrite insert_index_perm. now rewrite IH.
Qed.

Lemma sorted_index_le (l : list (N * (string * A))) :
  Sorted by_index l -> indexed l -> Sorted index_le (map snd l).
Proof.
  induction l as [|x l IH]; simpl; intros Hs Hi; [constructor|].
  inversion Hs as [|? ? Hs' Hhd]; subst.
  inversion Hi as [|? ? Hx Hi']; subst.
  constructor; [now apply IH|].
  destruct l as [|y l]; simpl; [constructor|].
  inversion Hhd as [|? ? Hle]; subst. inversion Hi' as [|? ? Hy _]; subst.
  constructor. unfold index_le. rewrite Hx, Hy. exact Hle.
Qed.

Lemma index_props_index_le o : Sorted index_le (map snd (index_props o)).
Proof.
  apply sorted_index_le; [apply index_props_sorted | apply index_props_indexed].
Qed.

End WithA.

(** The order depends on the names only. *)
Lemma index_props_map {A B : Type} (f : A -> B) (o : Obj A) :
  index_props (map (fun p => (fst p, f (snd p))) o) =
  map (fun x => (fst x, (fst (snd x), f (snd (snd x))))) (index_props o).
Proof.
  induction o as [|p o IH]; simpl; [reflexivity|].
  destruct (array_index (fst p)); [|exact IH]. rewrite IH.
  generalize (index_props o). intros l.
  induction l as [|[j q] l IHl]; simpl; [reflexivity|].
  destruct (N.leb n j); simpl; [reflexivity | now rewrite IHl].
Qed.

Lemma enumerate_map {A B : Type} (f : A -> B) (o : Obj A) :
  enumerate (map (fun p => (fst p, f (snd p))) o) =
  map (fun p => (fst p, f (snd p))) (enumerate o).
Proof.
  unfold enumerate. rewrite map_app, index_props_map. f_equal.
  - rewrite !map_map. reflexivity.
  - unfold named_props. induction o as [|p o IH]; simpl; [reflexivity|].
    destruct (negb (is_index (fst p))); simpl; now rewrite IH.
Qed.

End OrderFacts.

(* ================================================================== *)
(** * Facts about the shim *)
(* ================================================================== *)

Module ShimFacts.
Import Js Shim ObjFacts.

(** The [cookies] object after [verifyOtp] is the one before it with the
    writes of that call applied in order. *)
Lemma verifyOtp_accumulates (p : Provider) (cookies : Jar) :
  snd (verifyOtp p cookies) = accumulate (writes (calls p cookies)) cookies.
Proof.
  revert cookies. induction p as [e|name k IH|name v o k IH|name o k IH];
    intros cookies; simpl.
  - reflexivity.
  - apply IH.
  - rewrite IH. reflexivity.
  - apply IH.
Qed.

Lemma accumulate_lookup (ws : list (string * Entry)) (cookies : Jar)
    (name : string) :
  name <> proto_key ->
  get_own (accumulate ws cookies) name =
  match last_write ws name with
  | Some e => Some e
  | None => get_own cookies name
  end.
Proof.
  intros Hne. revert cookies.
  induction ws as [|[n e] ws IH]; intros cookies; simpl; [reflexivity|].
  unfold accumulate in *. simpl. rewrite IH.
  destruct (last_write ws name); [reflexivity|].
  destruct (String.eqb_spec n name) as [->|Hn].
  - now apply get_own_put_same.
  - apply get_own_put_other. congruence.
Qed.

Lemma accumulate_is_object (ws : list (string * Entry)) (cookies : Jar) :
  is_object cookies -> is_object (accumulate ws cookies).
Proof.
  revert cookies. unfold accumulate.
  induction ws as [|w ws IH]; intros cookies H; simpl; [exact H|].
  apply IH, is_object_put, H.
Qed.

Lemma accumulate_no_proto (ws : list (string * Entry)) (cookies : Jar) :
  ~ In proto_key (keys cookies) ->
  ~ In proto_key (keys (accumulate ws cookies)).
Proof.
  revert cookies. unfold accumulate.
  induction ws as [|w ws IH]; intros cookies H; simpl; [exact H|].
  apply IH, no_proto_put, H.
Qed.

(** Every name of the accumulated object was there before or was
    written. *)
Lemma accumulate_keys (ws : list (string * Entry)) (cookies : Jar)
    (name : string) :
  In name (keys (accumulate ws cookies)) ->
  In name (keys cookies) \/ In name (map fst ws).
Proof.
  revert cookies. unfold accumulate.
  induction ws as [|[n e] ws IH]; intros cookies; simpl; [tauto|].
  intros H. apply IH in H. destruct H as [H|H]; [|tauto].
  rewrite keys_put in H. simpl in H.
  destruct (String.eqb n proto_key); [tauto|].
  destruct (has_own cookies n); [tauto|].
  apply in_app_iff in H. destruct H as [H|[H|[]]]; tauto.
Qed.

Lemma captureSession_inr (p : Provider) (jar : Jar) :
  captureSession p = inr jar <-> verifyOtp p empty_jar = (None, jar).
Proof.
  unfold captureSession. destruct (verifyOtp p empty_jar) as [[e|] c];
    split; intros H; inversion H; reflexivity.
Qed.

Lemma captureSession_inl (p : Provider) (e : JsError) :
  captureSession p = inl e <-> fst (verifyOtp p empty_jar) = Some e.
Proof.
  unfold captureSession. destruct (verifyOtp p empty_jar) as [[e'|] c];
    simpl; split; intros H; inversion H; reflexivity.
Qed.

(** A captured jar is the accumulation of the writes of its call. *)
Lemma captured_accumulated (p : Provider) (jar : Jar) :
  captureSession p = inr jar ->
  jar = accumulate (writes (calls p empty_jar)) empty_jar.
Proof.
  intros H. apply captureSession_inr in H.
  rewrite <- verifyOtp_accumulates, H. reflexivity.
Qed.

Lemma captured_is_object (p : Provider) (jar : Jar) :
  captureSession p = inr jar -> is_object jar.
Proof.
  intros H. rewrite (captured_accumulated p jar H).
  apply accumulate_is_object. constructor.
Qed.

Lemma captured_no_proto (p : Provider) (jar : Jar) :
  captureSession p = inr jar -> ~ In proto_key (keys jar).
Proof.
  intros H. rewrite (captured_accumulated p jar H).
  apply accumulate_no_proto. intros [].
Qed.

(** For every name but [__proto__], the captured jar holds the entry
    last written under it, and nothing under a name never written. *)
Lemma captured_lookup (p : Provider) (jar : Jar) (name : string) :
  captureSession p = inr jar -> name <> proto_key ->
  get_own jar name = last_write (writes (calls p empty_jar)) name.
Proof.
  intros H Hne. rewrite (captured_accumulated p jar H).
  rewrite accumulate_lookup by exact Hne.
  now destruct (last_write (writes (calls p empty_jar)) name).
Qed.

(** Taking the calls of [remove] out of the provider changes neither the
    error nor the [cookies] object. *)
Lemma verifyOtp_without_remove (p : Provider) (cookies : Jar) :
  verifyOtp (without_remove p) cookies = verifyOtp p cookies.
Proof.
  revert cookies. induction p as [e|name k IH|name v o k IH|name o k IH];
    intros cookies; simpl; auto.
Qed.

Lemma captureSession_without_remove (p : Provider) :
  captureSession (without_remove p) = captureSession p.
Proof. unfold captureSession. now rewrite verifyOtp_without_remove. Qed.

(** Every read of the provider is answered [undefined]. *)
Lemma reads_undefined (p : Provider) (cookies : Jar) :
  Forall (fun r => r = VUndefined) (read_results (calls p cookies)).
Proof.
  revert cookies. induction p as [e|name k IH|name v o k IH|name o k IH];
    intros cookies; simpl; auto.
Qed.

Lemma get_call_undefined (p : Provider) (cookies : Jar)
    (name : string) (before : Jar) (r : Value) :
  In (GetCall name before r) (calls p cookies) -> r = VUndefined.
Proof.
  revert cookies. induction p as [e|n k IH|n v o k IH|n o k IH];
    intros cookies; simpl.
  - tauto.
  - intros [H|H]; [now inversion H | eapply IH, H].
  - intros [H|H]; [discriminate | eapply IH, H].
  - intros [H|H]; [discriminate | eapply IH, H].
Qed.

(** The answers do not depend on the [cookies] object the call started
    from. *)
Lemma reads_independent (p : Provider) (c1 c2 : Jar) :
  read_results (calls p c1) = read_results (calls p c2).
Proof.
  revert c1 c2. induction p as [e|name k IH|name v o k IH|name o k IH];
    intros c1 c2; simpl; auto.
  f_equal. apply IH.
Qed.

(** ** Writes, name by name *)

(** Two writes under one name, any name but [__proto__]: the object maps
    the name to the second value and attribute set, and holds the name
    once. *)
Lemma last_write_wins (name v1 v2 : string) (a1 a2 : Obj Value)
    (cookies : Jar) :
  name <> proto_key -> is_object cookies ->
  let cookies' := snd (set name v2 a2 (snd (set name v1 a1 cookies))) in
  get_own cookies' name = Some {| value := v2; options := a2 |}
  /\ count_occ string_dec (keys cookies') name = 1%nat
  /\ forall other, other <> name -> get_own cookies' other = get_own cookies other.
Proof.
  intros Hne Hobj. simpl. split; [|split].
  - now apply get_own_put_same.
  - assert (Hobj' : is_object
      (put (put cookies name {| value := v1; options := a1 |}) name
           {| value := v2; options := a2 |}))
      by (now repeat apply is_object_put).
    assert (Hin : In name (keys
      (put (put cookies name {| value := v1; options := a1 |}) name
           {| value := v2; options := a2 |}))).
    { apply get_own_put_same with (o := put cookies name
        {| value := v1; options := a1 |})
        (v := {| value := v2; options := a2 |}) in Hne as Hg.
      destruct (in_dec string_dec name (keys
        (put (put cookies name {| value := v1; options := a1 |}) name
           {| value := v2; options := a2 |}))) as [Hi|Hni]; [exact Hi|].
      apply get_own_none in Hni. congruence. }
    apply (NoDup_count_occ' string_dec); assumption.
  - intros other Ho. now rewrite !get_own_put_other.
Qed.

(** The names of the accumulated object: those it had, then the written
    names in the order of their first write. *)
Lemma first_occurrences_ext (s1 s2 l : list string) :
  (forall x, In x s1 <-> In x s2) ->
  first_occurrences s1 l = first_occurrences s2 l.
Proof.
  revert s1 s2. induction l as [|x l IH]; intros s1 s2 H; simpl; [reflexivity|].
  assert (E : existsb (String.eqb x) s1 = existsb (String.eqb x) s2).
  { destruct (existsb (String.eqb x) s2) eqn:E2.
    - apply existsb_exists in E2. destruct E2 as [y [Hy Hxy]].
      apply String.eqb_eq in Hxy. subst y. apply existsb_exists.
      exists x. split; [now apply H | apply String.eqb_refl].
    - destruct (existsb (String.eqb x) s1) eqn:E1; [|reflexivity].
      apply existsb_exists in E1. destruct E1 as [y [Hy Hxy]].
      apply String.eqb_eq in Hxy. subst y.
      assert (Hc : existsb (String.eqb x) s2 = true).
      { apply existsb_exists. exists x.
        split; [now apply H | apply String.eqb_refl]. }
      congruence. }
  rewrite E. destruct (existsb (String.eqb x) s2).
  - now apply IH.
  - f_equal. apply IH. intros y. simpl. rewrite H. tauto.
Qed.

Lemma keys_accumulate (ws : list (string * Entry)) (cookies : Jar) :
  keys (accumulate ws cookies) =
  (keys cookies
   ++ first_occurrences (proto_key :: keys cookies) (map fst ws))%list.
Proof.
  revert cookies. unfold accumulate.
  induction ws as [|[n e] ws IH]; intros cookies; simpl.
  - now rewrite app_nil_r.
  - rewrite IH, keys_put. simpl.
    rewrite (String.eqb_sym n proto_key).
    destruct (String.eqb proto_key n) eqn:Hp; simpl.
    + apply String.eqb_eq in Hp. subst n. reflexivity.
    + destruct (has_own cookies n) eqn:Hown.
      * apply has_own_in in Hown.
        assert (E : existsb (String.eqb n) (keys cookies) = true).
        { apply existsb_exists. exists n.
          split; [exact Hown | apply String.eqb_refl]. }
        rewrite E. reflexivity.
      * apply has_own_false in Hown.
        assert (E : existsb (String.eqb n) (keys cookies) = false).
        { destruct (existsb (String.eqb n) (keys cookies)) eqn:E';
            [|reflexivity].
          apply existsb_exists in E'. destruct E' as [y [Hy Hny]].
          apply String.eqb_eq in Hny. subst y. contradiction. }
        rewrite E, <- app_assoc. simpl. do 2 f_equal.
        apply first_occurrences_ext. intros x. simpl.
        rewrite in_app_iff. simpl. tauto.
Qed.

(** What a successful capture returns, name by name: for every name but
    [__proto__] the entry last written under it, no entry under a name
    never written, each name once, and the names in the order of their
    first write. *)
Lemma capture_matches_writes (p : Provider) (jar : Jar) :
  captureSession p = inr jar ->
  jar = accumulate (writes (calls p empty_jar)) empty_jar
  /\ (forall name, name <> proto_key ->
        get_own jar name = last_write (writes (calls p empty_jar)) name)
  /\ get_own jar proto_key = None
  /\ is_object jar
  /\ keys jar =
     first_occurrences [proto_key] (map fst (writes (calls p empty_jar))).
Proof.
  intros H. split; [|split; [|split; [|split]]].
  - now apply captured_accumulated.
  - intros name Hne. now apply captured_lookup.
  - apply get_own_none. now apply captured_no_proto with (p := p).
  - now apply captured_is_object with (p := p).
  - rewrite (captured_accumulated p jar H) at 1. now rewrite keys_accumulate.
Qed.

End ShimFacts.

(* ================================================================== *)
(** * Facts about the emitter *)
(* ================================================================== *)

Module EmitterFacts.
Import Js Shim Emitter ObjFacts OrderFacts.

(** ** The printed text *)

Lemma append_assoc (a b c : string) : ((a ++ b) ++ c = a ++ (b ++ c))%string.
Proof. induction a as [|x a IH]; simpl; [reflexivity | now rewrite IH]. Qed.

Lemma append_nil_r (a : string) : (a ++ "")%string = a.
Proof. induction a as [|x a IH]; simpl; [reflexivity | now rewrite IH]. Qed.

Lemma trim_end_app (a b : string) :
  trim_end b <> EmptyString -> trim_end (a ++ b) = (a ++ trim_end b)%string.
Proof.
  intros Hb. induction a as [|c a IH]; simpl; [reflexivity|].
  rewrite IH. destruct (a ++ trim_end b)%string eqn:E; [|reflexivity].
  exfalso. destruct a; simpl in E; [contradiction | discriminate].
Qed.

(** Trimming removes the first and the last line break of the template
    and nothing else. *)
Lemma render_closed (cookies : Jar) :
  render cookies = (snippet_head ++ JSON_stringify cookies ++ snippet_tail)%string.
Proof.
  unfold render, trim.
  change (trim_start (template_head ++ JSON_stringify cookies ++ template_tail))
    with (snippet_head ++ (JSON_stringify cookies ++ template_tail))%string.
  rewrite <- append_assoc.
  rewrite trim_end_app by (vm_compute; discriminate).
  now rewrite append_assoc.
Qed.

Lemma render_starts (cookies : Jar) :
  exists rest, render cookies = String "("%char rest.
Proof. rewrite render_closed. eexists. reflexivity. Qed.

(** ** The loop *)

(** One iteration on a property the object holds. *)
Lemma write_loop_step (cookies : Jar) (k : string) (e : Entry)
    (names : list string) :
  is_object cookies -> has_own cookies "hasOwnProperty" = false ->
  In (k, e) cookies ->
  write_loop cookies (k :: names) =
  if encodable k e
  then {| assigned := cookieString k e
                      :: assigned (write_loop cookies names);
          thrown := thrown (write_loop cookies names) |}
  else {| assigned := []; thrown := Some uri_malformed |}.
Proof.
  intros Hobj Hno Hin. simpl. rewrite Hno.
  assert (Hown : has_own cookies k = true).
  { apply has_own_in. apply (in_map fst) in Hin. exact Hin. }
  rewrite Hown. simpl. rewrite (get_own_in cookies k e Hobj Hin).
  now destruct (encodable k e).
Qed.

Lemma write_loop_ok (cookies : Jar) (l : Jar) :
  is_object cookies -> has_own cookies "hasOwnProperty" = false ->
  incl l cookies -> well_formed_jar l = true ->
  write_loop cookies (keys l) =
  {| assigned := map cookie_of l; thrown := None |}.
Proof.
  intros Hobj Hno. induction l as [|[k e] l IH]; intros Hincl Hwf.
  - reflexivity.
  - simpl in Hwf. apply andb_true_iff in Hwf. destruct Hwf as [Hke Hl].
    simpl in Hke. cbn [keys map fst].
    rewrite (write_loop_step cookies k e) by
      (try assumption; apply Hincl; now left).
    rewrite Hke. fold (keys l). rewrite IH; [reflexivity| |exact Hl].
    intros x Hx. apply Hincl. now right.
Qed.

(** The loop stops at the first entry that cannot be encoded: the
    entries before it are assigned, it and the later ones are not. *)
Lemma write_loop_stops (cookies : Jar) (before after : Jar) (k : string)
    (e : Entry) :
  is_object cookies -> has_own cookies "hasOwnProperty" = false ->
  incl (before ++ (k, e) :: after)%list cookies ->
  well_formed_jar before = true -> encodable k e = false ->
  write_loop cookies (keys (before ++ (k, e) :: after)%list) =
  {| assigned := map cookie_of before; thrown := Some uri_malformed |}.
Proof.
  intros Hobj Hno. induction before as [|[k' e'] before IH];
    intros Hincl Hwf Hbad.
  - cbn [app keys map fst].
    rewrite (write_loop_step cookies k e) by
      (try assumption; apply Hincl; now left).
    now rewrite Hbad.
  - simpl in Hwf. apply andb_true_iff in Hwf. destruct Hwf as [Hke Hl].
    simpl in Hke. cbn [app keys map fst].
    rewrite (write_loop_step cookies k' e') by
      (try assumption; apply Hincl; now left).
    rewrite Hke.
    change (map fst (before ++ (k, e) :: after)%list)
      with (keys (before ++ (k, e) :: after)%list).
    rewrite IH; [reflexivity| |exact Hl|exact Hbad].
    intros x Hx. apply Hincl. now right.
Qed.

(** Whatever happens, a string the loop assigns is the string of a
    property of the object. *)
Lemma write_loop_sound (cookies : Jar) (names : list string) :
  Forall (fun s => exists k e, get_own cookies k = Some e
                               /\ s = cookieString k e)
    (assigned (write_loop cookies names)).
Proof.
  induction names as [|k names IH]; simpl; [constructor|].
  destruct (has_own cookies "hasOwnProperty"); [constructor|].
  destruct (has_own cookies k); simpl; [|exact IH].
  destruct (get_own cookies k) as [e|] eqn:E; [|exact IH].
  destruct (encodable k e); simpl; [|constructor].
  constructor; [|exact IH]. exists k, e. now split.
Qed.

Lemma well_formed_jar_perm (l l' : Jar) :
  Permutation l l' -> well_formed_jar l = true -> well_formed_jar l' = true.
Proof.
  unfold well_formed_jar. intros Hp H. apply forallb_forall.
  intros x Hx. rewrite forallb_forall in H. apply H.
  eapply Permutation_in; [symmetry; exact Hp | exact Hx].
Qed.

Lemma writeCookies_ok (cookies : Jar) :
  is_object cookies -> has_own cookies "hasOwnProperty" = false ->
  well_formed_jar cookies = true ->
  writeCookies cookies =
  {| assigned := map cookie_of (enumerate cookies); thrown := None |}.
Proof.
  intros Hobj Hno Hwf. unfold writeCookies. apply write_loop_ok; auto.
  - intros x Hx. eapply Permutation_in; [apply enumerate_perm | exact Hx].
  - eapply well_formed_jar_perm; [symmetry; apply enumerate_perm | exact Hwf].
Qed.

(** A cookie named [hasOwnProperty] shadows the method the loop calls:
    the first iteration throws and nothing is assigned. *)
Lemma writeCookies_shadowed (cookies : Jar) :
  has_own cookies "hasOwnProperty" = true ->
  writeCookies cookies = {| assigned := []; thrown := Some not_a_function |}.
Proof.
  intros Hown. unfold writeCookies.
  destruct (map fst (enumerate cookies)) as [|k ks] eqn:E.
  - exfalso. apply has_own_in, in_keys_enumerate in Hown.
    unfold keys in Hown. now rewrite E in Hown.
  - simpl. now rewrite Hown.
Qed.

(** ** The embedded literal *)

Lemma keys_literal_jar (cookies : Jar) :
  keys (literal_jar cookies) = keys (enumerate cookies).
Proof. unfold literal_jar, keys. rewrite map_map. reflexivity. Qed.

Lemma enumerate_literal_jar (cookies : Jar) :
  enumerate (literal_jar cookies) = literal_jar cookies.
Proof.
  unfold literal_jar.
  rewrite (enumerate_map literal_entry (enumerate cookies)).
  now rewrite enumerate_idem.
Qed.

Lemma is_object_literal_jar (cookies : Jar) :
  is_object cookies -> is_object (literal_jar cookies).
Proof.
  intros H. unfold is_object. rewrite keys_literal_jar.
  now apply is_object_enumerate.
Qed.

Lemma has_own_literal_jar (cookies : Jar) (k : string) :
  has_own (literal_jar cookies) k = has_own cookies k.
Proof.
  rewrite <- (has_own_enumerate cookies k).
  destruct (has_own (enumerate cookies) k) eqn:H.
  - apply has_own_in. rewrite keys_literal_jar. now apply has_own_in.
  - apply has_own_false. rewrite keys_literal_jar. now apply has_own_false.
Qed.

(** Running the printed snippet: one assignment per property of the
    embedded literal, in enumeration order. *)
Lemma well_formed_literal_jar (cookies : Jar) :
  well_formed_jar cookies = true -> well_formed_jar (literal_jar cookies) = true.
Proof.
  intros H.
  apply (well_formed_jar_perm cookies (enumerate cookies)) in H;
    [|symmetry; apply enumerate_perm].
  unfold literal_jar. revert H. generalize (enumerate cookies). intros l.
  unfold well_formed_jar. induction l as [|[k e] l IH]; simpl; [reflexivity|].
  intros H. apply andb_true_iff in H. destruct H as [Hke Hl].
  apply andb_true_iff. split; [exact Hke | now apply IH].
Qed.

Lemma run_snippet_ok (cookies : Jar) :
  is_object cookies -> has_own cookies "hasOwnProperty" = false ->
  well_formed_jar cookies = true ->
  run_snippet cookies =
  {| assigned := map cookie_of (literal_jar cookies); thrown := None |}.
Proof.
  intros Hobj Hno Hwf. unfold run_snippet.
  rewrite writeCookies_ok.
  - now rewrite enumerate_literal_jar.
  - now apply is_object_literal_jar.
  - now rewrite has_own_literal_jar.
  - now apply well_formed_literal_jar.
Qed.

(** ** Reading the options of the literal *)

Lemma get_own_some_in {A : Type} (o : Obj A) (k : string) (v : A) :
  get_own o k = Some v -> In (k, v) o.
Proof.
  induction o as [|[k' v'] o IH]; simpl; [discriminate|].
  destruct (String.eqb_spec k' k) as [->|Hne].
  - intros H. inversion H. now left.
  - intros H. right. now apply IH.
Qed.

Lemma get_own_perm {A : Type} (o o' : Obj A) (k : string) :
  is_object o -> Permutation o o' -> get_own o' k = get_own o k.
Proof.
  intros Hobj Hperm.
  assert (Hobj' : is_object o').
  { unfold is_object, keys.
    eapply Permutation_NoDup; [apply Permutation_map, Hperm | exact Hobj]. }
  destruct (get_own o k) as [v|] eqn:E.
  - apply get_own_in; [exact Hobj'|].
    eapply Permutation_in; [exact Hperm | now apply get_own_some_in].
  - apply get_own_none. apply get_own_none in E. intros Hin. apply E.
    unfold keys in *. eapply Permutation_in; [|exact Hin].
    apply Permutation_map. now symmetry.
Qed.

Lemma get_own_filter {A : Type} (f : string * A -> bool) (o : Obj A)
    (k : string) :
  is_object o ->
  get_own (filter f o) k =
  match get_own o k with
  | Some v => if f (k, v) then Some v else None
  | None => None
  end.
Proof.
  unfold is_object, keys.
  induction o as [|[k' v'] o IH]; simpl; intros Hnd; [reflexivity|].
  inversion Hnd as [|? ? Hnotin Hnd']; subst.
  destruct (String.eqb_spec k' k) as [->|Hne].
  - destruct (f (k, v')) eqn:Hf; simpl.
    + now rewrite String.eqb_refl.
    + rewrite (IH Hnd'). apply get_own_none in Hnotin.
      now rewrite Hnotin.
  - destruct (f (k', v')); simpl; [|now apply IH].
    apply String.eqb_neq in Hne. rewrite Hne. now apply IH.
Qed.

(** Reading a property of the options of the literal gives what the
    captured options gave, for any name but [__proto__]. *)
Lemma get_prop_literal (o : Obj Value) (k : string) :
  is_object o -> k <> proto_key ->
  get_prop (literal_options o) k = get_prop o k.
Proof.
  intros Hobj Hne. unfold get_prop, literal_options.
  rewrite get_own_filter by now apply is_object_enumerate.
  rewrite (get_own_perm o (enumerate o) k Hobj)
    by (symmetry; apply enumerate_perm).
  destruct (get_own o k) as [v|]; [|reflexivity]. simpl.
  apply String.eqb_neq in Hne. rewrite Hne. simpl.
  destruct v; reflexivity.
Qed.

Lemma cookieString_literal (name : string) (e : Entry) :
  is_object (options e) ->
  cookieString name (literal_entry e) = cookieString name e.
Proof.
  intros Hobj. unfold cookieString, literal_entry. simpl.
  rewrite !get_prop_literal by (auto; discriminate). reflexivity.
Qed.

(** The encoding of the specification is the one the code calls. *)
Lemma percent_encode_octet (c : ascii) : Spec.percent c = encode_octet c.
Proof. destruct c as [[] [] [] [] [] [] [] []]; reflexivity. Qed.

Lemma percentEncode_encode (s : string) :
  Spec.percentEncode s = encodeURIComponent s.
Proof.
  unfold encodeURIComponent. induction s as [|c s IH]; [reflexivity|].
  cbn [Spec.percentEncode flat_map_string].
  now rewrite percent_encode_octet, IH.
Qed.

(** The loop body against section 4.3 of the specification. *)
Lemma cookieString_assignment (name : string) (e : Entry) :
  Spec.well_typed (options e) = true ->
  cookieString name e =
  Spec.assignment name (value e) (Spec.attributes_of (options e)).
Proof.
  unfold Spec.assignment. rewrite !percentEncode_encode.
  unfold Spec.well_typed, cookieString, Spec.attributes_of.
  rewrite !andb_true_iff. intros [[Hm Hp] Hs]. simpl.
  destruct (get_prop (options e) "maxAge") as [| |b|n|s]; try discriminate;
  destruct (get_prop (options e) "path") as [| |b'|n'|[|c p]]; try discriminate;
  destruct (get_prop (options e) "sameSite") as [| |b''|n''|[|c' q]];
    try discriminate; simpl;
  rewrite ?append_assoc; simpl; rewrite ?append_nil_r; reflexivity.
Qed.

Lemma get_prop_app_other (o extra : Obj Value) (k : string) :
  ~ In k (keys extra) -> get_prop (o ++ extra)%list k = get_prop o k.
Proof.
  intros H. unfold get_prop. rewrite get_own_app.
  apply get_own_none in H. rewrite H. now destruct (get_own o k).
Qed.

End EmitterFacts.

(* ================================================================== *)
(** * Facts about the command *)
(* ================================================================== *)

Module CliFacts.
Import Js Shim Emitter Cli ObjFacts EmitterFacts.

Ltac unfold_run :=
  unfold runMain, run, check_user, issue_token, capture, emit, when,
    console_error2, console_error, console_log, process_exit, await, bind,
    ret, url_of, anon_key_of, service_key_of.

(** Case analysis on the innermost scrutinee of the goal. *)
Ltac innermost x :=
  lazymatch x with
  | context [match ?y with _ => _ end] => innermost y
  | _ => destruct x eqn:?
  end.

Ltac run_step :=
  match goal with
  | |- context [match ?x with _ => _ end] => innermost x
  end; simpl in *.

Ltac run_cases := unfold_run; simpl; repeat run_step.

Lemma not_snippet_prefix (c : ascii) (rest : string) :
  c <> "("%char -> ~ is_snippet (String c rest).
Proof.
  intros Hc [cookies H]. destruct (render_starts cookies) as [r Hr].
  rewrite Hr in H. inversion H. contradiction.
Qed.

Lemma not_snippet_empty : ~ is_snippet "".
Proof.
  intros [cookies H]. destruct (render_starts cookies) as [r Hr].
  rewrite Hr in H. discriminate.
Qed.

Lemma configured_not (w : World) :
  (js_not (supabase_url w) || js_not (supabase_anon_key w)
   || js_not (service_role_key w))%bool = negb (configured w).
Proof.
  unfold configured, js_not.
  destruct (ToBoolean (supabase_url w)), (ToBoolean (supabase_anon_key w)),
    (ToBoolean (service_role_key w)); reflexivity.
Qed.

(** Without a complete configuration the process prints the diagnostic
    and exits, and that is all it does. *)
Lemma run_unconfigured (w : World) (args : Args) :
  configured w = false ->
  runMain w args = {| events := [Stderr config_message]; status := 1 |}.
Proof.
  intros H. unfold runMain, run. rewrite configured_not, H. reflexivity.
Qed.

Lemma bind_ext {A B : Type} (m : Proc A) (f g : A -> Proc B) :
  (forall a, f a = g a) -> bind m f = bind m g.
Proof.
  intros H. unfold bind. destruct m as [ev [code|a]]; [reflexivity|].
  now rewrite H.
Qed.

(** ** The configuration *)

Lemma missing_falsy (w : World) (name : string) :
  missing w name <-> ToBoolean (process_env w name) = false.
Proof.
  unfold missing, process_env. destruct (env w name) as [[|c s]|]; simpl;
    split; intros H; try tauto; try discriminate;
    destruct H as [H|H]; discriminate.
Qed.

Lemma filled_truthy (w : World) (name : string) :
  filled w name <-> ToBoolean (process_env w name) = true.
Proof.
  unfold filled, process_env. destruct (env w name) as [[|c s]|]; simpl;
    split; intros H; try discriminate.
  - destruct H as [s [H Hne]]. inversion H. subst. contradiction.
  - reflexivity.
  - eexists. split; [reflexivity | discriminate].
  - destruct H as [s [H _]]. discriminate.
Qed.

Lemma js_or_truthy (a b : Value) :
  ToBoolean (js_or a b) = (ToBoolean a || ToBoolean b)%bool.
Proof. unfold js_or. destruct (ToBoolean a) eqn:E; simpl; auto. Qed.

Lemma configured_iff (w : World) :
  configured w = true <->
  (filled w "SUPABASE_URL" \/ filled w "NEXT_PUBLIC_SUPABASE_URL")
  /\ (filled w "SUPABASE_ANON_KEY" \/ filled w "NEXT_PUBLIC_SUPABASE_ANON_KEY")
  /\ filled w "SUPABASE_SERVICE_ROLE_KEY".
Proof.
  unfold configured, supabase_url, supabase_anon_key, service_role_key.
  rewrite !andb_true_iff, !js_or_truthy, !orb_true_iff, !filled_truthy.
  tauto.
Qed.

Ltac no_snippets :=
  repeat constructor;
  solve [apply not_snippet_empty | apply not_snippet_prefix; discriminate].

(** A run either prints no snippet at all, or it captured a jar from a
    successful verification and prints the block of lines 128-165 for
    that jar, after at most the two comment lines of the user check. *)
Lemma run_outcome (w : World) (args : Args) :
  (exists token cookies pre,
     generate_link w (url_of w) (service_key_of w) (email args) = inr token /\
     captureSession (verify_otp w (url_of w) (anon_key_of w) token)
       = inr cookies /\
     status (runMain w args) = 0 /\
     stderr (events (runMain w args)) = [] /\
     stdout (events (runMain w args)) = (pre ++ output_block cookies)%list /\
     Forall (fun s => ~ is_snippet s) pre)
  \/ Forall (fun s => ~ is_snippet s) (stdout (events (runMain w args))).
Proof.
  run_cases;
    try (right; no_snippets).
  all: left; do 2 eexists.
  - exists ["// Email: " ++ email args; "// User ID: " ++ id u]%string.
    repeat split; try eassumption; try reflexivity. no_snippets.
  - exists []. repeat split; try eassumption; try reflexivity. constructor.
Qed.

(** ** The earlier revision *)

(** The earlier revision prints the same snippet up to the white space
    around it, and does what the present one does with the user check
    skipped: the same network calls, the same diagnostics, the same
    status. *)
Lemma earlier_revision_agrees (w : World) (address : string) :
  (forall cookies, trim (Earlier.snippet_text cookies) = render cookies)
  /\ network (events (Earlier.runMain w address))
     = network (events (runMain w
         {| email := address; skip_check := true; dry_run := false |}))
  /\ stderr (events (Earlier.runMain w address))
     = stderr (events (runMain w
         {| email := address; skip_check := true; dry_run := false |}))
  /\ status (Earlier.runMain w address)
     = status (runMain w
         {| email := address; skip_check := true; dry_run := false |}).
Proof.
  split; [reflexivity|].
  unfold Earlier.runMain, Earlier.run, Earlier.emit. run_cases;
    repeat split; reflexivity.
Qed.

End CliFacts.

(* ================================================================== *)
(** * The configuration check and the environment (C9, C10) *)
(* ================================================================== *)

Module ConfigProps.
Import Js Shim Emitter Cli CliFacts.

(** C9.  When one of the three settings is missing -- neither
    [SUPABASE_URL] nor [NEXT_PUBLIC_SUPABASE_URL] gives a value, or
    neither [SUPABASE_ANON_KEY] nor [NEXT_PUBLIC_SUPABASE_ANON_KEY] does,
    or [SUPABASE_SERVICE_ROLE_KEY] does not -- the process does exactly
    one thing: it writes the diagnostic to the error stream.  It makes no
    network call, prints nothing to the output and exits with status 1. *)
Theorem missing_configuration_is_fatal (w : World) (args : Args) :
  (missing w "SUPABASE_URL" /\ missing w "NEXT_PUBLIC_SUPABASE_URL")
  \/ (missing w "SUPABASE_ANON_KEY"
      /\ missing w "NEXT_PUBLIC_SUPABASE_ANON_KEY")
  \/ missing w "SUPABASE_SERVICE_ROLE_KEY" ->
  events (runMain w args) = [Stderr config_message]
  /\ network (events (runMain w args)) = []
  /\ stderr (events (runMain w args)) = [config_message]
  /\ stdout (events (runMain w args)) = []
  /\ status (runMain w args) = 1
  /\ status (runMain w args) <> 0.
Proof.
  intros H.
  assert (Hc : configured w = false).
  { destruct (configured w) eqn:E; [|reflexivity]. exfalso.
    apply configured_iff in E. destruct E as [Hu [Ha Hs]].
    destruct H as [[H1 H2]|[[H1 H2]|H1]].
    - apply missing_falsy in H1, H2.
      destruct Hu as [Hu|Hu]; apply filled_truthy in Hu; congruence.
    - apply missing_falsy in H1, H2.
      destruct Ha as [Ha|Ha]; apply filled_truthy in Ha; congruence.
    - apply missing_falsy in H1. apply filled_truthy in Hs. congruence. }
  rewrite (run_unconfigured w args Hc). simpl.
  repeat split; discriminate.
Qed.

(** C9 at an empty environment. *)
Lemma missing_configuration_is_fatal_witness :
  missing (Scenario.world (fun _ => None) (Resolve None))
    "SUPABASE_SERVICE_ROLE_KEY"
  /\ status (runMain (Scenario.world (fun _ => None) (Resolve None))
               (Scenario.args_for "user@example.com")) = 1.
Proof.
  split; [left; reflexivity|].
  apply (missing_configuration_is_fatal
           (Scenario.world (fun _ => None) (Resolve None))
           (Scenario.args_for "user@example.com")).
  right. right. left. reflexivity.
Defined.

(** C10, as stated, fails: with [SUPABASE_URL] set to the empty string
    and [NEXT_PUBLIC_SUPABASE_URL] set as well, both variants are set and
    the [NEXT_PUBLIC] one is taken; with [SUPABASE_URL] set to the empty
    string and no [NEXT_PUBLIC_SUPABASE_URL], a variant is set and the
    configuration is rejected. *)
Lemma empty_variable_does_not_count :
  (env (Scenario.world Scenario.env_empty_url (Resolve None)) "SUPABASE_URL"
     = Some ""
   /\ env (Scenario.world Scenario.env_empty_url (Resolve None))
        "NEXT_PUBLIC_SUPABASE_URL" = Some "https://next.supabase.co"
   /\ supabase_url (Scenario.world Scenario.env_empty_url (Resolve None))
      = VStr "https://next.supabase.co")
  /\ (env (Scenario.world Scenario.env_only_empty_url (Resolve None))
        "SUPABASE_URL" = Some ""
      /\ configured (Scenario.world Scenario.env_only_empty_url (Resolve None))
         = false
      /\ runMain (Scenario.world Scenario.env_only_empty_url (Resolve None))
           (Scenario.args_for "user@example.com")
         = {| events := [Stderr config_message]; status := 1 |}).
Proof. repeat split. Qed.

(** C10, amended.  A variable counts when it is set to a non-empty
    string.  The base URL is [SUPABASE_URL] when that is filled, whatever
    [NEXT_PUBLIC_SUPABASE_URL] holds, and [NEXT_PUBLIC_SUPABASE_URL] when
    [SUPABASE_URL] is unset or empty; the same for the anonymous key.  The
    service-role key is read from [SUPABASE_SERVICE_ROLE_KEY] alone.  The
    configuration is accepted exactly when a URL variable is filled, an
    anonymous-key variable is filled and [SUPABASE_SERVICE_ROLE_KEY] is
    filled. *)
Theorem configuration_fallback (w : World) :
  (forall s, env w "SUPABASE_URL" = Some s -> s <> "" ->
     supabase_url w = VStr s)
  /\ (missing w "SUPABASE_URL" ->
      supabase_url w = process_env w "NEXT_PUBLIC_SUPABASE_URL")
  /\ (forall s, env w "SUPABASE_ANON_KEY" = Some s -> s <> "" ->
        supabase_anon_key w = VStr s)
  /\ (missing w "SUPABASE_ANON_KEY" ->
      supabase_anon_key w = process_env w "NEXT_PUBLIC_SUPABASE_ANON_KEY")
  /\ service_role_key w = process_env w "SUPABASE_SERVICE_ROLE_KEY"
  /\ (configured w = true <->
      (filled w "SUPABASE_URL" \/ filled w "NEXT_PUBLIC_SUPABASE_URL")
      /\ (filled w "SUPABASE_ANON_KEY"
          \/ filled w "NEXT_PUBLIC_SUPABASE_ANON_KEY")
      /\ filled w "SUPABASE_SERVICE_ROLE_KEY").
Proof.
  assert (Hfilled : forall name s, env w name = Some s -> s <> "" ->
            forall other, js_or (process_env w name) other = VStr s).
  { intros name s Hs Hne other. unfold js_or, process_env. rewrite Hs.
    destruct s; [contradiction | reflexivity]. }
  assert (Hmissing : forall name, missing w name ->
            forall other, js_or (process_env w name) other = other).
  { intros name Hm other. apply missing_falsy in Hm. unfold js_or.
    now rewrite Hm. }
  unfold supabase_url, supabase_anon_key, service_role_key.
  split; [|split; [|split; [|split; [|split]]]].
  - intros s Hs Hne. now apply Hfilled.
  - intros Hm. now apply Hmissing.
  - intros s Hs Hne. now apply Hfilled.
  - intros Hm. now apply Hmissing.
  - reflexivity.
  - apply configured_iff.
Qed.

(** C10 at an environment with an empty [SUPABASE_URL]. *)
Lemma configuration_fallback_witness :
  (env (Scenario.world Scenario.env_empty_url (Resolve None))
     "SUPABASE_ANON_KEY" = Some "anon-key"
   /\ "anon-key" <> ""
   /\ supabase_anon_key (Scenario.world Scenario.env_empty_url (Resolve None))
      = VStr "anon-key")
  /\ (missing (Scenario.world Scenario.env_empty_url (Resolve None))
        "SUPABASE_URL"
      /\ supabase_url (Scenario.world Scenario.env_empty_url (Resolve None))
         = process_env (Scenario.world Scenario.env_empty_url (Resolve None))
             "NEXT_PUBLIC_SUPABASE_URL").
Proof.
  split.
  - split; [reflexivity|]. split; [discriminate|].
    apply (configuration_fallback
             (Scenario.world Scenario.env_empty_url (Resolve None)));
      [reflexivity | discriminate].
  - split; [right; reflexivity|].
    apply (configuration_fallback
             (Scenario.world Scenario.env_empty_url (Resolve None))).
    right. reflexivity.
Defined.

End ConfigProps.

(* ================================================================== *)
(** * The handlers and the captured jar (C1, C4, C5, C8) *)
(* ================================================================== *)

Module ShimProps.
Import Js Shim Emitter Cli ObjFacts ShimFacts CliFacts.

(** ** Writes *)

(** C1.  A verification that succeeds after one write, under the name
    [__proto__], returns a jar without any entry: the write is among the
    calls of the provider, the jar is empty, the printed object is [{}]
    and the snippet assigns no cookie.  The specification asks for an
    entry with that name, value and attribute set. *)
Theorem proto_write_is_not_captured :
  writes (calls Scenario.provider_proto empty_jar)
    = [("__proto__", {| value := "x"; options := [] |})]
  /\ fst (verifyOtp Scenario.provider_proto empty_jar) = None
  /\ captureSession Scenario.provider_proto = inr []
  /\ JSON_stringify [] = "{}"
  /\ run_snippet [] = {| assigned := []; thrown := None |}.
Proof. repeat split. Qed.

(** C5.  Two writes under the name [__proto__] leave the jar as it was:
    on the empty jar, no entry under that name and no entry at all.  The
    specification asks for the second value and attribute set under the
    name. *)
Theorem proto_write_leaves_no_entry :
  (forall v1 v2 a1 a2 cookies,
     snd (set "__proto__" v2 a2 (snd (set "__proto__" v1 a1 cookies)))
     = cookies)
  /\ get_own (snd (set "__proto__" "2" [("path", VStr "/")]
               (snd (set "__proto__" "1" [] empty_jar)))) "__proto__" = None.
Proof. split; reflexivity. Qed.

(** ** Reads *)

(** C4.  The handler [get] returns [undefined] for every name and every
    state of the [cookies] object, and leaves the object as it is.  In a
    call of [verifyOtp], started from any object, every read of the
    provider is answered [undefined], whatever was written before it; the
    answers are the same from any two starting objects.  A provider that
    writes [a], reads [a], writes [a] again and reads it again gets
    [undefined] both times, the first time with [a] already in the object
    and written again later. *)
Theorem read_is_always_absent :
  (forall name cookies, get name cookies = (VUndefined, cookies))
  /\ (forall p cookies,
        Forall (fun c => match c with
                         | GetCall _ _ r => r = VUndefined
                         | _ => True
                         end) (calls p cookies))
  /\ (forall p cookies,
        Forall (fun r => r = VUndefined) (read_results (calls p cookies)))
  /\ (forall p c1 c2,
        read_results (calls p c1) = read_results (calls p c2))
  /\ calls Scenario.provider_rw empty_jar =
     [SetCall "a" "1" [] [] VUndefined;
      GetCall "a" [("a", {| value := "1"; options := [] |})] VUndefined;
      RemoveCall "a" [] [("a", {| value := "1"; options := [] |})] VUndefined;
      SetCall "a" "2" [("path", VStr "/")]
        [("a", {| value := "1"; options := [] |})] VUndefined;
      GetCall "a" [("a", {| value := "2"; options := [("path", VStr "/")] |})]
        VUndefined].
Proof.
  split; [reflexivity|]. split; [|split; [|split; [|reflexivity]]].
  - intros p cookies. apply Forall_forall. intros [n b r|n v o b r|n o b r] Hin;
      [|exact I|exact I].
    eapply get_call_undefined, Hin.
  - apply reads_undefined.
  - apply reads_independent.
Qed.

(** ** Clears *)

(** C8.  The handler [remove] returns normally, with [undefined], for
    every name and attribute set, and leaves the [cookies] object as it
    is.  Taking the provider's calls of [remove] out changes neither the
    result of [verifyOtp] nor anything the process does. *)
Theorem clear_is_a_no_op :
  (forall name options cookies,
     remove name options cookies = (VUndefined, cookies))
  /\ (forall p cookies,
        verifyOtp (without_remove p) cookies = verifyOtp p cookies)
  /\ (forall w args,
        runMain (world_without_remove w) args = runMain w args).
Proof.
  split; [reflexivity|]. split; [apply verifyOtp_without_remove|].
  intros w args. unfold runMain.
  assert (E : run (world_without_remove w) args = run w args);
    [|now rewrite E].
  unfold run, supabase_url, supabase_anon_key, service_role_key, process_env,
    check_user, issue_token, capture.
  cbn [world_without_remove env users_select generate_link verify_otp].
  do 4 (apply bind_ext; intros ?). f_equal.
  unfold await, bind at 1 3.
  now rewrite captureSession_without_remove.
Qed.

End ShimProps.

(* ================================================================== *)
(** * Failure of the verification (C3) *)
(* ================================================================== *)

Module FailureProps.
Import Js Shim Emitter Cli Flow ObjFacts ShimFacts EmitterFacts CliFacts.

(** C3.  When [verifyOtp] resolves to an error, the capture yields that
    error and no jar, whatever was written before: the result is the
    one of a verifier that wrote nothing.  A run that made the
    verification call and got an error from it does exactly this: the
    user check, the two requests, and one line on the error stream, the
    diagnostic with the error; then it exits with status 1.  Its output
    holds the lines of the user check and nothing else, so no snippet
    and nothing of the jar; the whole outcome is the one of a run whose
    verifier wrote nothing before it failed.  In general a run prints
    either no snippet at all, or the whole block for a jar captured from
    a successful verification. *)
Theorem verification_error_yields_nothing :
  (forall p e,
     fst (verifyOtp p empty_jar) = Some e ->
     captureSession p = inl e
     /\ captureSession p = captureSession (Resolve (Some e)))
  /\ (forall w args url key token e,
        In (Network (VerifyOtp url key token)) (events (runMain w args)) ->
        fst (verifyOtp (verify_otp w url key token) empty_jar) = Some e ->
        runMain w args =
        {| events :=
             (check_events w args
              ++ [Network (link_call w args);
                  Network (verify_call w token);
                  Stderr ("Error getting cookie from magic link hashed token: "
                          ++ e)])%list;
           status := 1 |}
        /\ runMain w args = runMain (with_provider w (Resolve (Some e))) args
        /\ status (runMain w args) = 1
        /\ stderr (events (runMain w args)) =
           ["Error getting cookie from magic link hashed token: " ++ e]%string
        /\ (exists pre,
              user_lines w args = Some pre
              /\ stdout (events (runMain w args)) = pre)
        /\ network (events (runMain w args)) = plan w args
        /\ Forall (fun s => ~ is_snippet s) (stdout (events (runMain w args))))
  /\ (forall w args,
        (exists token cookies pre,
           generate_link w (url_of w) (service_key_of w) (email args)
             = inr token
           /\ captureSession (verify_otp w (url_of w) (anon_key_of w) token)
              = inr cookies
           /\ status (runMain w args) = 0
           /\ stderr (events (runMain w args)) = []
           /\ stdout (events (runMain w args))
              = (pre ++ output_block cookies)%list
           /\ Forall (fun s => ~ is_snippet s) pre)
        \/ Forall (fun s => ~ is_snippet s) (stdout (events (runMain w args)))).
Proof.
  split; [|split].
  - intros p e H. apply captureSession_inl in H. now split.
  - intros w args url key token e Hin Herr. revert Hin.
    unfold check_events, user_lines, plan, issued, users_call, link_call,
      verify_call.
    unfold_run.
    change (supabase_url (with_provider w (Resolve (Some e))))
      with (supabase_url w).
    change (supabase_anon_key (with_provider w (Resolve (Some e))))
      with (supabase_anon_key w).
    change (service_role_key (with_provider w (Resolve (Some e))))
      with (service_role_key w).
    cbn [with_provider env users_select generate_link verify_otp].
    simpl. repeat run_step; intros Hin; try discriminate;
      repeat match goal with
             | H : _ \/ _ |- _ => destruct H
             | H : False |- _ => destruct H
             | H : Network _ = Network _ |- _ => inversion H; clear H; subst
             | H : Stdout _ = Network _ |- _ => discriminate H
             | H : Stderr _ = Network _ |- _ => discriminate H
             end;
      apply captureSession_inl in Herr;
      match goal with
      | H : captureSession _ = _ |- _ => rewrite Herr in H; inversion H; subst
      end;
      repeat (split; [reflexivity|]);
      (split; [eexists; split; reflexivity|]);
      (split; [reflexivity|]); no_snippets.
  - apply run_outcome.
Qed.

(** C3 at a verifier that writes a cookie and then fails. *)
Lemma verification_error_yields_nothing_witness :
  fst (verifyOtp Scenario.provider_failing empty_jar)
    = Some "AuthApiError: Email link is invalid or has expired"
  /\ snd (verifyOtp Scenario.provider_failing empty_jar) <> empty_jar
  /\ captureSession Scenario.provider_failing
     = inl "AuthApiError: Email link is invalid or has expired"
  /\ stdout (events (runMain (Scenario.world Scenario.full_env
                                 Scenario.provider_failing)
                        (Scenario.args_for "user@example.com")))
     = ["// Email: user@example.com"; "// User ID: 42"]
  /\ status (runMain (Scenario.world Scenario.full_env
                        Scenario.provider_failing)
               (Scenario.args_for "user@example.com")) = 1.
Proof.
  split; [reflexivity|]. split; [discriminate|]. split.
  - apply verification_error_yields_nothing. reflexivity.
  - assert (Hin : In (Network (VerifyOtp "https://project.supabase.co"
                                 "anon-key" "tok_1"))
                    (events (runMain (Scenario.world Scenario.full_env
                                        Scenario.provider_failing)
                               (Scenario.args_for "user@example.com"))))
      by (simpl; right; right; right; right; left; reflexivity).
    destruct (proj1 (proj2 verification_error_yields_nothing)
                (Scenario.world Scenario.full_env Scenario.provider_failing)
                (Scenario.args_for "user@example.com")
                "https://project.supabase.co" "anon-key" "tok_1"
                "AuthApiError: Email link is invalid or has expired"
                Hin eq_refl) as [Hrun [_ [Hstatus _]]].
    split; [|exact Hstatus]. rewrite Hrun. reflexivity.
Defined.

End FailureProps.

(* ================================================================== *)
(** * The printed snippet (C2, C6, C7) *)
(* ================================================================== *)

Module EmitterProps.
Import Js Shim Emitter Cli ObjFacts OrderFacts ShimFacts EmitterFacts CliFacts.

(** ** The assignment of one cookie *)

(** C2.  For an entry whose options are an object holding [maxAge],
    [path] and [sameSite] at their declared types, the string the
    snippet assigns to [document.cookie] is the one of section 4.3:
    the encoded name, [=], the encoded value, then [; max-age=<n>] when
    [maxAge] is a number, zero included, [; path=<p>] when [path] is a
    non-empty string, [; samesite=<s>] when [sameSite] is a non-empty
    string, in this order.  Attributes under other names change nothing.
    For a captured jar of such entries every string the snippet assigns
    is the string of section 4.3 for one of the entries, whatever else
    happens; when the snippet runs to its end -- no cookie named
    [hasOwnProperty], every name and value well-formed -- it assigns
    exactly these strings, one per entry.  For the jar of the example it
    assigns [sb-access-token=abc123; max-age=3600; path=/; samesite=lax];
    for a name and a value with reserved characters it assigns their
    percent-encoded forms, the path and the same-site policy as they
    are. *)
Theorem assignment_format :
  (forall name e,
     is_object (options e) -> Spec.well_typed (options e) = true ->
     cookieString name (literal_entry e) =
     Spec.assignment name (value e) (Spec.attributes_of (options e)))
  /\ (forall name v,
        cookieString name
          (literal_entry {| value := v; options := [("maxAge", VNum 0)] |})
        = (Spec.percentEncode name ++ "=" ++ Spec.percentEncode v
           ++ "; max-age=0")%string)
  /\ (forall name v o extra,
        ~ In "maxAge" (keys extra) -> ~ In "path" (keys extra) ->
        ~ In "sameSite" (keys extra) ->
        cookieString name {| value := v; options := (o ++ extra)%list |}
        = cookieString name {| value := v; options := o |})
  /\ (forall p cookies,
        captureSession p = inr cookies ->
        Forall Spec.typed cookies ->
        Forall (fun s => exists q, In q cookies /\ s = Spec.assignment_of q)
          (assigned (run_snippet cookies)))
  /\ (forall p cookies,
        captureSession p = inr cookies ->
        has_own cookies "hasOwnProperty" = false ->
        well_formed_jar cookies = true ->
        Forall Spec.typed cookies ->
        run_snippet cookies =
        {| assigned := map Spec.assignment_of (enumerate cookies);
           thrown := None |})
  /\ run_snippet Spec.example_jar =
     {| assigned :=
          ["sb-access-token=abc123; max-age=3600; path=/; samesite=lax"];
        thrown := None |}
  /\ run_snippet Spec.reserved_jar =
     {| assigned :=
          ["a%20b=x%3By%3Dz%2F%C3%A9; max-age=0; path=/a b; samesite=lax"];
        thrown := None |}
  /\ map Spec.assignment_of Spec.reserved_jar =
     ["a%20b=x%3By%3Dz%2F%C3%A9; max-age=0; path=/a b; samesite=lax"].
Proof.
  assert (Hone : forall cookies k e,
            Forall Spec.typed cookies -> In (k, e) (enumerate cookies) ->
            cookieString k (literal_entry e) = Spec.assignment_of (k, e)).
  { intros cookies k e Hall Hin.
    assert (Hin' : In (k, e) cookies)
      by (eapply Permutation_in; [apply enumerate_perm | exact Hin]).
    rewrite Forall_forall in Hall. destruct (Hall _ Hin') as [Hobj Hty].
    simpl in Hobj, Hty. rewrite cookieString_literal by exact Hobj.
    unfold Spec.assignment_of. simpl. now apply cookieString_assignment. }
  split; [|split; [|split; [|split; [|split; [|split; [|split]]]]]].
  - intros name e Hobj Hty. rewrite cookieString_literal by exact Hobj.
    now apply cookieString_assignment.
  - intros name v. rewrite !percentEncode_encode.
    unfold cookieString. simpl. now rewrite !append_assoc.
  - intros name v o extra Hm Hp Hs. unfold cookieString. simpl.
    now rewrite !get_prop_app_other by assumption.
  - intros p cookies Hcap Hall. unfold run_snippet, writeCookies.
    eapply Forall_impl; [|apply write_loop_sound].
    intros s [k [e' [Hget ->]]]. apply get_own_some_in in Hget.
    unfold literal_jar in Hget. apply in_map_iff in Hget.
    destruct Hget as [[k0 e] [Heq Hin]]. simpl in Heq.
    inversion Heq; subst. exists (k, e). split.
    + eapply Permutation_in; [apply enumerate_perm | exact Hin].
    + now apply (Hone cookies).
  - intros p cookies Hcap Hno Hwf Hall.
    rewrite run_snippet_ok;
      [|now apply captured_is_object with (p := p) | exact Hno | exact Hwf].
    f_equal. unfold literal_jar. rewrite map_map. apply map_ext_in.
    intros [k e] Hin. unfold cookie_of. simpl. now apply (Hone cookies).
  - reflexivity.
  - reflexivity.
  - reflexivity.
Qed.

(** C2 at an entry with five attributes, at the jar of the end-to-end
    scenario, at an entry with [domain], [secure] and [httpOnly], and at
    a jar whose snippet stops at its second entry. *)
Lemma assignment_format_witness :
  (is_object (options {| value := "abc123";
                         options := [("maxAge", VNum 3600); ("path", VStr "/");
                                     ("sameSite", VStr "lax");
                                     ("httpOnly", VBool true);
                                     ("domain", VUndefined)] |})
   /\ Spec.well_typed [("maxAge", VNum 3600); ("path", VStr "/");
                       ("sameSite", VStr "lax"); ("httpOnly", VBool true);
                       ("domain", VUndefined)] = true
   /\ cookieString "sb-access-token"
        (literal_entry
           {| value := "abc123";
              options := [("maxAge", VNum 3600); ("path", VStr "/");
                          ("sameSite", VStr "lax"); ("httpOnly", VBool true);
                          ("domain", VUndefined)] |})
      = Spec.assignment "sb-access-token" "abc123"
          {| Spec.maxAge := Some 3600; Spec.path := Some "/";
             Spec.sameSite := Some "lax" |})
  /\ (captureSession Scenario.provider_AB = inr Scenario.jar_AB
      /\ well_formed_jar Scenario.jar_AB = true
      /\ run_snippet Scenario.jar_AB =
         {| assigned := map Spec.assignment_of (enumerate Scenario.jar_AB);
            thrown := None |})
  /\ cookieString "sid"
       {| value := "1";
          options := [("path", VStr "/"); ("domain", VStr "example.com");
                      ("secure", VBool true); ("httpOnly", VBool true)] |}
     = "sid=1; path=/"
  /\ (captureSession Flow.provider_surrogate = inr Flow.jar_surrogate
      /\ thrown (run_snippet Flow.jar_surrogate) = Some uri_malformed
      /\ Forall (fun s => exists q, In q Flow.jar_surrogate
                                    /\ s = Spec.assignment_of q)
           (assigned (run_snippet Flow.jar_surrogate))).
Proof.
  assert (Hobj : is_object [("maxAge", VNum 3600); ("path", VStr "/");
                            ("sameSite", VStr "lax"); ("httpOnly", VBool true);
                            ("domain", VUndefined)]).
  { unfold is_object. simpl.
    repeat (constructor; [simpl; intuition discriminate|]). constructor. }
  split.
  - split; [exact Hobj|]. split; [reflexivity|].
    apply (proj1 assignment_format "sb-access-token"
             {| value := "abc123";
                options := [("maxAge", VNum 3600); ("path", VStr "/");
                            ("sameSite", VStr "lax"); ("httpOnly", VBool true);
                            ("domain", VUndefined)] |} Hobj eq_refl).
  - split.
    + split; [reflexivity|]. split; [reflexivity|].
      apply (proj1 (proj2 (proj2 (proj2 (proj2 assignment_format))))
               Scenario.provider_AB Scenario.jar_AB eq_refl eq_refl eq_refl).
      repeat constructor; simpl; intuition discriminate.
    + split.
      * transitivity (cookieString "sid"
                        {| value := "1"; options := [("path", VStr "/")] |});
          [|reflexivity].
        apply (proj1 (proj2 (proj2 assignment_format)) "sid" "1"
                 [("path", VStr "/")]
                 [("domain", VStr "example.com"); ("secure", VBool true);
                  ("httpOnly", VBool true)]);
          simpl; intuition discriminate.
      * split; [reflexivity|]. split; [reflexivity|].
        apply (proj1 (proj2 (proj2 (proj2 assignment_format)))
                 Flow.provider_surrogate Flow.jar_surrogate eq_refl).
        repeat constructor; simpl; intuition discriminate.
Defined.

(** ** The order of the assignments *)

(** C6, as stated, fails on its general part: a verifier that writes
    cookie [b] and then cookie [1] gives a jar with [b] before [1], and
    a snippet that lists and assigns [1] before [b]. *)
Lemma index_names_come_first :
  captureSession Scenario.provider_b1 = inr Scenario.jar_b1
  /\ keys Scenario.jar_b1 = ["b"; "1"]
  /\ JSON_stringify Scenario.jar_b1 = Scenario.json_b1
  /\ run_snippet Scenario.jar_b1 =
     {| assigned := ["1=y"; "b=x"]; thrown := None |}
  /\ assigned (run_snippet Scenario.jar_b1)
     <> map cookie_of Scenario.jar_b1.
Proof. repeat split. discriminate. Qed.

(** C6, amended.  In the end-to-end scenario -- the configuration
    complete, the email [user@example.com], the user check skipped or
    passed, the issuer answering [tok_1], the verifier writing [A] with
    value [1] and then [B] with value [2] and path [/app] -- the process
    exits with status 0 and prints the block for the jar [A], [B]; the
    printed object lists [A] before [B], and the snippet assigns [A=1]
    and then [B=2; path=/app].  In general the jar holds the names in
    the order of their first write, and the printed object lists, and
    the snippet run to its end assigns, first every entry named by an
    array index, in ascending order of the indices, then the other
    entries in the order of the jar; without array indices among the
    names that is the order of the jar. *)
Theorem snippet_order :
  (forall w args,
     configured w = true ->
     email args = "user@example.com" -> dry_run args = false ->
     (skip_check args = true
      \/ exists user rest,
           users_select w (url_of w) (service_key_of w) (email args)
           = inr (user :: rest)) ->
     generate_link w (url_of w) (service_key_of w) (email args)
       = inr "tok_1" ->
     verify_otp w (url_of w) (anon_key_of w) "tok_1" = Scenario.provider_AB ->
     status (runMain w args) = 0
     /\ exists pre,
          stdout (events (runMain w args))
            = (pre ++ output_block Scenario.jar_AB)%list
          /\ Forall (fun s => ~ is_snippet s) pre)
  /\ JSON_stringify Scenario.jar_AB = Scenario.json_AB
  /\ run_snippet Scenario.jar_AB =
     {| assigned := ["A=1"; "B=2; path=/app"]; thrown := None |}
  /\ (forall p cookies,
        captureSession p = inr cookies ->
        keys cookies =
          first_occurrences [proto_key]
            (map fst (writes (calls p empty_jar)))
        /\ exists first,
             Permutation first (filter (fun q => is_index (fst q)) cookies)
             /\ Sorted index_le first
             /\ JSON_stringify cookies =
                json_braces
                  (map (fun q => (fst q, json_entry (snd q)))
                     (first
                      ++ filter (fun q => negb (is_index (fst q))) cookies))
             /\ (has_own cookies "hasOwnProperty" = false ->
                 well_formed_jar cookies = true ->
                 run_snippet cookies =
                 {| assigned :=
                      map (fun q =>
                             cookieString (fst q) (literal_entry (snd q)))
                        (first
                         ++ filter (fun q => negb (is_index (fst q)))
                              cookies);
                    thrown := None |}))
  /\ (forall p cookies,
        captureSession p = inr cookies ->
        (forall k, In k (keys cookies) -> is_index k = false) ->
        JSON_stringify cookies =
          json_braces (map (fun q => (fst q, json_entry (snd q))) cookies)
        /\ (has_own cookies "hasOwnProperty" = false ->
            well_formed_jar cookies = true ->
            run_snippet cookies =
            {| assigned :=
                 map (fun q => cookieString (fst q) (literal_entry (snd q)))
                   cookies;
               thrown := None |})).
Proof.
  split; [|split; [|split; [|split]]].
  - intros w args Hc Hemail Hdry Huser Hlink Hver.
    unfold runMain, run. rewrite configured_not, Hc. simpl.
    unfold url_of, service_key_of, anon_key_of in *.
    unfold check_user, issue_token, capture. rewrite Hdry.
    destruct Huser as [Hskip|[user [rest Hsel]]].
    + rewrite Hskip. simpl. unfold await, bind at 4. rewrite Hlink. simpl.
      rewrite Hver. simpl. split; [reflexivity|].
      exists []. split; [reflexivity | constructor].
    + destruct (skip_check args); simpl.
      * unfold await, bind at 4. rewrite Hlink. simpl.
        rewrite Hver. simpl. split; [reflexivity|].
        exists []. split; [reflexivity | constructor].
      * rewrite Hsel. simpl. rewrite Hlink. simpl. rewrite Hver. simpl.
        split; [reflexivity|].
        exists ["// Email: " ++ email args; "// User ID: " ++ id user]%string.
        split; [reflexivity | no_snippets].
  - reflexivity.
  - reflexivity.
  - intros p cookies Hcap. split; [now apply capture_matches_writes|].
    exists (map snd (index_props cookies)).
    split; [apply index_props_filter_perm|].
    split; [apply index_props_index_le|].
    split; [reflexivity|].
    intros Hno Hwf.
    rewrite run_snippet_ok;
      [|now apply captured_is_object with (p := p) | exact Hno | exact Hwf].
    unfold literal_jar. now rewrite map_map.
  - intros p cookies Hcap Hnames. split.
    + unfold JSON_stringify. now rewrite enumerate_named.
    + intros Hno Hwf.
      rewrite run_snippet_ok;
        [|now apply captured_is_object with (p := p) | exact Hno | exact Hwf].
      unfold literal_jar. rewrite enumerate_named by exact Hnames.
      now rewrite map_map.
Qed.

(** C6 at the world of the end-to-end scenario and at a verifier that
    writes [7], [sid], [3] and [sid] again. *)
Lemma snippet_order_witness :
  (configured (Scenario.world Scenario.full_env Scenario.provider_AB) = true
   /\ status (runMain (Scenario.world Scenario.full_env Scenario.provider_AB)
                 (Scenario.args_for "user@example.com")) = 0)
  /\ (captureSession Scenario.provider_AB = inr Scenario.jar_AB
      /\ has_own Scenario.jar_AB "hasOwnProperty" = false
      /\ well_formed_jar Scenario.jar_AB = true
      /\ run_snippet Scenario.jar_AB =
         {| assigned :=
              map (fun q => cookieString (fst q) (literal_entry (snd q)))
                Scenario.jar_AB;
            thrown := None |})
  /\ (captureSession Flow.provider_mixed = inr Flow.jar_mixed
      /\ keys Flow.jar_mixed = ["7"; "sid"; "3"]
      /\ assigned (run_snippet Flow.jar_mixed)
         = ["3=c"; "7=a"; "sid=d; max-age=0"]
      /\ exists first,
           Permutation first
             (filter (fun q => is_index (fst q)) Flow.jar_mixed)
           /\ Sorted index_le first
           /\ JSON_stringify Flow.jar_mixed =
              json_braces
                (map (fun q => (fst q, json_entry (snd q)))
                   (first
                    ++ filter (fun q => negb (is_index (fst q)))
                         Flow.jar_mixed))).
Proof.
  split; [|split].
  - split; [reflexivity|].
    apply (proj1 snippet_order
             (Scenario.world Scenario.full_env Scenario.provider_AB)
             (Scenario.args_for "user@example.com"));
      try reflexivity.
    right. exists {| id := "42" |}, []. reflexivity.
  - split; [reflexivity|]. split; [reflexivity|]. split; [reflexivity|].
    assert (Hn : forall k, In k (keys Scenario.jar_AB) -> is_index k = false)
      by (intros k [<-|[<-|[]]]; reflexivity).
    apply (proj2 (proj2 (proj2 (proj2 (proj2 snippet_order)))
             Scenario.provider_AB Scenario.jar_AB eq_refl Hn));
      reflexivity.
  - split; [reflexivity|]. split; [reflexivity|]. split; [reflexivity|].
    destruct (proj2 (proj1 (proj2 (proj2 (proj2 snippet_order)))
                Flow.provider_mixed Flow.jar_mixed eq_refl))
      as [first [Hperm [Hsorted [Hjson _]]]].
    exists first. now repeat split.
Defined.

(** ** The text as a function of the jar *)

(** C7.  The printed text is the fixed head, [JSON.stringify] of the jar
    and the fixed tail, for every jar: equal jars give equal texts, and
    the empty jar gives the text around [{}], a snippet that assigns no
    cookie.  Whatever the environment, the arguments and the answers of
    the remote operations, a snippet found in the output of a run is the
    text for the jar captured in that run. *)
Theorem render_is_pure_and_total :
  (forall c1 c2 : Jar, c1 = c2 -> render c1 = render c2)
  /\ (forall cookies,
        render cookies
        = (snippet_head ++ JSON_stringify cookies ++ snippet_tail)%string)
  /\ render [] = (snippet_head ++ "{}" ++ snippet_tail)%string
  /\ run_snippet [] = {| assigned := []; thrown := None |}
  /\ (forall w args text,
        In text (stdout (events (runMain w args))) -> is_snippet text ->
        exists token cookies,
          generate_link w (url_of w) (service_key_of w) (email args)
            = inr token
          /\ captureSession (verify_otp w (url_of w) (anon_key_of w) token)
             = inr cookies
          /\ text = render cookies).
Proof.
  split; [intros c1 c2 H; now rewrite H|].
  split; [apply render_closed|].
  split; [apply (render_closed [])|].
  split; [reflexivity|].
  intros w args text Hin Hsnip.
  destruct (run_outcome w args)
    as [[token [cookies [pre [Hlink [Hcap [_ [_ [Hout Hpre]]]]]]]]|Hnone].
  - exists token, cookies. split; [exact Hlink|]. split; [exact Hcap|].
    rewrite Hout in Hin. apply in_app_iff in Hin. destruct Hin as [Hin|Hin].
    + rewrite Forall_forall in Hpre. exfalso. exact (Hpre _ Hin Hsnip).
    + simpl in Hin.
      destruct Hin as [H|[H|[H|[H|[H|[H|[]]]]]]]; subst text;
        try reflexivity; exfalso; revert Hsnip;
        solve [apply not_snippet_empty
              | apply not_snippet_prefix; discriminate].
  - rewrite Forall_forall in Hnone. exfalso. exact (Hnone _ Hin Hsnip).
Qed.

(** C7 at the world of the end-to-end scenario. *)
Lemma render_is_pure_and_total_witness :
  In (render Scenario.jar_AB)
     (stdout (events (runMain
        (Scenario.world Scenario.full_env Scenario.provider_AB)
        (Scenario.args_for "user@example.com"))))
  /\ exists token cookies,
       generate_link (Scenario.world Scenario.full_env Scenario.provider_AB)
         (url_of (Scenario.world Scenario.full_env Scenario.provider_AB))
         (service_key_of
            (Scenario.world Scenario.full_env Scenario.provider_AB))
         (email (Scenario.args_for "user@example.com")) = inr token
       /\ captureSession
            (verify_otp (Scenario.world Scenario.full_env Scenario.provider_AB)
               (url_of (Scenario.world Scenario.full_env Scenario.provider_AB))
               (anon_key_of
                  (Scenario.world Scenario.full_env Scenario.provider_AB))
               token) = inr cookies
       /\ render Scenario.jar_AB = render cookies.
Proof.
  assert (Hin : In (render Scenario.jar_AB)
     (stdout (events (runMain
        (Scenario.world Scenario.full_env Scenario.provider_AB)
        (Scenario.args_for "user@example.com"))))).
  { simpl. do 5 right. left. reflexivity. }
  split; [exact Hin|].
  apply (proj2 (proj2 (proj2 (proj2 render_is_pure_and_total)))
           (Scenario.world Scenario.full_env Scenario.provider_AB)
           (Scenario.args_for "user@example.com")
           (render Scenario.jar_AB) Hin).
  exists Scenario.jar_AB. reflexivity.
Defined.

End EmitterProps.

(* ================================================================== *)
(** * Facts about the course of a run *)
(* ================================================================== *)

Module FlowFacts.
Import Js Shim Emitter Cli Flow ObjFacts ShimFacts EmitterFacts CliFacts.

Ltac unfold_flow :=
  unfold is_prefix, plan, issued, users_call, link_call, verify_call,
    user_lines.

(** The requests of a run are an initial part of its plan. *)
Lemma network_prefix_plan (w : World) (args : Args) :
  is_prefix (network (events (runMain w args))) (plan w args).
Proof.
  unfold_flow. run_cases; eexists; simpl; reflexivity.
Qed.

Lemma in_plan (w : World) (args : Args) (c : NetCall) :
  In c (plan w args) ->
  (c = users_call w args /\ skip_check args = false)
  \/ (c = link_call w args /\ dry_run args = false)
  \/ (exists token,
        c = verify_call w token /\ issued w args = inr token
        /\ dry_run args = false).
Proof.
  unfold plan. rewrite in_app_iff. intros [H|H].
  - destruct (skip_check args); [destruct H|].
    destruct H as [H|[]]. left. now split.
  - destruct (dry_run args); [destruct H|].
    destruct H as [H|H]; [right; left; now split|].
    destruct (issued w args) as [e|token] eqn:E; [destruct H|].
    destruct H as [H|[]]. right. right. exists token. now repeat split.
Qed.

(** A run ends with status 0 or 1, and with 0 exactly when it wrote
    nothing to the error stream. *)
Lemma status_and_stderr (w : World) (args : Args) :
  (status (runMain w args) = 0 /\ stderr (events (runMain w args)) = [])
  \/ (status (runMain w args) = 1 /\ stderr (events (runMain w args)) <> []).
Proof.
  run_cases; solve [left; split; reflexivity
                   | right; split; [reflexivity | discriminate]].
Qed.

End FlowFacts.

(* ================================================================== *)
(** * The steps of the command, one by one *)
(* ================================================================== *)

Module RunProps.
Import Js Shim Emitter Cli Flow ObjFacts ShimFacts EmitterFacts CliFacts.
Import FlowFacts.

(** X1.  With the configuration complete and the user check not
    skipped, an error of the user lookup ends the run: the lookup is the
    only request made, the error stream gets the error and the advice to
    use [--skip-check], nothing is printed and the status is 1. *)
Theorem user_lookup_error_stops (w : World) (args : Args) (e : JsError) :
  configured w = true -> skip_check args = false ->
  users_select w (url_of w) (service_key_of w) (email args) = inl e ->
  runMain w args =
  {| events :=
       [Network (users_call w args);
        Stderr ("Error checking user existence: " ++ e);
        Stderr "If you do not have a `users` table under the public schema with an `email` column, please use the --skip-check flag to bypass this check."];
     status := 1 |}.
Proof.
  intros Hc Hskip Hsel. unfold runMain, run. rewrite configured_not, Hc.
  unfold check_user, url_of, service_key_of, users_call in *.
  rewrite Hskip. simpl. rewrite Hsel. reflexivity.
Qed.

(** X1 at a directory without a [users] table. *)
Lemma user_lookup_error_stops_witness :
  configured (world_of (inl "relation public.users does not exist")
                (inr "tok_1") Scenario.provider_AB) = true
  /\ status (runMain (world_of (inl "relation public.users does not exist")
                        (inr "tok_1") Scenario.provider_AB)
               (Scenario.args_for "user@example.com")) = 1.
Proof.
  split; [reflexivity|].
  rewrite (user_lookup_error_stops
             (world_of (inl "relation public.users does not exist")
                (inr "tok_1") Scenario.provider_AB)
             (Scenario.args_for "user@example.com")
             "relation public.users does not exist");
    reflexivity.
Defined.

(** X2.  With the configuration complete and the user check not
    skipped, a lookup that finds no row ends the run: the lookup is the
    only request made, the error stream gets one line naming the email,
    nothing is printed and the status is 1. *)
Theorem unknown_user_stops (w : World) (args : Args) :
  configured w = true -> skip_check args = false ->
  users_select w (url_of w) (service_key_of w) (email args) = inr [] ->
  runMain w args =
  {| events :=
       [Network (users_call w args);
        Stderr ("User with email " ++ email args ++ " does not exist. Use --skip-check to bypass this check and let a new account be created automatically with the given email.")];
     status := 1 |}.
Proof.
  intros Hc Hskip Hsel. unfold runMain, run. rewrite configured_not, Hc.
  unfold check_user, url_of, service_key_of, users_call in *.
  rewrite Hskip. simpl. rewrite Hsel. reflexivity.
Qed.

(** X2 at an empty directory. *)
Lemma unknown_user_stops_witness :
  configured (world_of (inr []) (inr "tok_1") Scenario.provider_AB) = true
  /\ network (events (runMain
        (world_of (inr []) (inr "tok_1") Scenario.provider_AB)
        (Scenario.args_for "nobody@example.com")))
     = [UsersSelect "https://project.supabase.co" "service-key"
          "nobody@example.com"].
Proof.
  split; [reflexivity|].
  rewrite (unknown_user_stops
             (world_of (inr []) (inr "tok_1") Scenario.provider_AB)
             (Scenario.args_for "nobody@example.com"));
    reflexivity.
Defined.

(** X3.  A dry run never asks for a link and never verifies a token: its
    requests are user lookups only, it prints no snippet, and when the
    configuration is complete and the user check passes it prints the
    lines of the check, makes the requests of its plan and ends with
    status 0. *)
Theorem dry_run_stops_before_the_link (w : World) (args : Args) :
  dry_run args = true ->
  (forall c, In c (network (events (runMain w args))) ->
     c = users_call w args)
  /\ Forall (fun s => ~ is_snippet s) (stdout (events (runMain w args)))
  /\ (forall pre, configured w = true -> user_lines w args = Some pre ->
        status (runMain w args) = 0
        /\ stdout (events (runMain w args)) = pre
        /\ stderr (events (runMain w args)) = []
        /\ network (events (runMain w args)) = plan w args).
Proof.
  intros Hdry. split; [|split].
  - intros c Hin. destruct (network_prefix_plan w args) as [rest Hrest].
    assert (Hp : In c (plan w args))
      by (rewrite Hrest; apply in_app_iff; now left).
    apply in_plan in Hp.
    destruct Hp as [[H _]|[[_ H]|[token [_ [_ H]]]]]; [exact H| |];
      congruence.
  - revert Hdry. run_cases; intros Hdry; try discriminate; no_snippets.
  - intros pre Hc Hpre. revert Hpre. unfold_flow.
    unfold runMain, run. rewrite configured_not, Hc, Hdry.
    unfold check_user, url_of, service_key_of.
    destruct (skip_check args); simpl.
    + intros H. inversion H. repeat split.
    + destruct (users_select w (ToString (supabase_url w))
                  (ToString (service_role_key w)) (email args))
        as [e|[|user rest]]; try discriminate.
      intros H. inversion H. repeat split.
Qed.

(** X3 at a dry run with a known user. *)
Lemma dry_run_stops_before_the_link_witness :
  dry_run (dry_args "user@example.com") = true
  /\ user_lines (world_of one_user (inr "tok_1") Scenario.provider_AB)
       (dry_args "user@example.com")
     = Some ["// Email: user@example.com"; "// User ID: 42"]
  /\ status (runMain (world_of one_user (inr "tok_1") Scenario.provider_AB)
               (dry_args "user@example.com")) = 0.
Proof.
  split; [reflexivity|]. split; [reflexivity|].
  apply (proj2 (proj2 (dry_run_stops_before_the_link
           (world_of one_user (inr "tok_1") Scenario.provider_AB)
           (dry_args "user@example.com") eq_refl))
           ["// Email: user@example.com"; "// User ID: 42"]);
    reflexivity.
Defined.

(** X4.  When the run reaches the issuer and the issuer answers with an
    error, the run ends there: the verification is never called, the
    error stream gets the diagnostic with the error, the output holds
    the lines of the user check only, and the status is 1. *)
Theorem issuer_error_stops (w : World) (args : Args) (pre : list string)
    (e : JsError) :
  configured w = true -> dry_run args = false ->
  user_lines w args = Some pre -> issued w args = inl e ->
  status (runMain w args) = 1
  /\ stderr (events (runMain w args))
     = ["Error generating magic link: " ++ e]%string
  /\ stdout (events (runMain w args)) = pre
  /\ network (events (runMain w args)) = plan w args
  /\ forall url key token,
       ~ In (VerifyOtp url key token) (network (events (runMain w args))).
Proof.
  intros Hc Hdry Hpre He.
  assert (H : status (runMain w args) = 1
    /\ stderr (events (runMain w args))
       = ["Error generating magic link: " ++ e]%string
    /\ stdout (events (runMain w args)) = pre
    /\ network (events (runMain w args)) = plan w args).
  { revert Hpre He. unfold_flow.
    unfold runMain, run. rewrite configured_not, Hc, Hdry.
    unfold check_user, issue_token, url_of, service_key_of.
    destruct (skip_check args); simpl.
    - intros Hp Hl. inversion Hp. rewrite Hl. simpl. repeat split.
    - destruct (users_select w (ToString (supabase_url w))
                  (ToString (service_role_key w)) (email args))
        as [e'|[|user rest]]; try discriminate.
      intros Hp Hl. inversion Hp. simpl. rewrite Hl. simpl. repeat split. }
  destruct H as [H1 [H2 [H3 H4]]]. repeat split; try assumption.
  intros url key token Hin. rewrite H4 in Hin. apply in_plan in Hin.
  destruct Hin as [[Hx _]|[[Hx _]|[t [_ [Hx _]]]]];
    try discriminate. congruence.
Qed.

(** X4 at an issuer that refuses the email. *)
Lemma issuer_error_stops_witness :
  issued (world_of one_user (inl "AuthApiError: invalid email")
            Scenario.provider_AB) (Scenario.args_for "user@example.com")
    = inl "AuthApiError: invalid email"
  /\ status (runMain (world_of one_user (inl "AuthApiError: invalid email")
                        Scenario.provider_AB)
               (Scenario.args_for "user@example.com")) = 1.
Proof.
  split; [reflexivity|].
  apply (issuer_error_stops
           (world_of one_user (inl "AuthApiError: invalid email")
              Scenario.provider_AB)
           (Scenario.args_for "user@example.com")
           ["// Email: user@example.com"; "// User ID: 42"]
           "AuthApiError: invalid email");
    reflexivity.
Defined.

(** X5.  A run that nothing stops -- the configuration complete, no dry
    run, the user check skipped or passed, a token issued, the
    verification successful -- ends with status 0, writes nothing to the
    error stream, makes exactly the requests of its plan, and prints the
    lines of the user check followed by the block for the captured
    jar.  Of the rows the lookup found only the first is used. *)
Theorem unhindered_run (w : World) (args : Args) (pre : list string)
    (token : string) (cookies : Jar) :
  configured w = true -> dry_run args = false ->
  user_lines w args = Some pre -> issued w args = inr token ->
  captureSession (verify_otp w (url_of w) (anon_key_of w) token)
    = inr cookies ->
  status (runMain w args) = 0
  /\ stderr (events (runMain w args)) = []
  /\ stdout (events (runMain w args)) = (pre ++ output_block cookies)%list
  /\ network (events (runMain w args)) = plan w args.
Proof.
  intros Hc Hdry Hpre Hl Hcap. revert Hpre Hl Hcap. unfold_flow.
  unfold runMain, run. rewrite configured_not, Hc, Hdry.
  unfold check_user, issue_token, capture, url_of, service_key_of,
    anon_key_of.
  destruct (skip_check args); simpl.
  - intros Hp Hl Hcap. inversion Hp. rewrite Hl. simpl. rewrite Hcap.
    simpl. repeat split.
  - destruct (users_select w (ToString (supabase_url w))
                (ToString (service_role_key w)) (email args))
      as [e'|[|user rest]]; try discriminate.
    intros Hp Hl Hcap. inversion Hp. simpl. rewrite Hl. simpl.
    rewrite Hcap. simpl. repeat split.
Qed.

(** X5 at the world of two known users and the verifier of section 8. *)
Lemma unhindered_run_witness :
  user_lines (world_of one_user (inr "tok_1") Scenario.provider_AB)
    (Scenario.args_for "user@example.com")
    = Some ["// Email: user@example.com"; "// User ID: 42"]
  /\ stdout (events (runMain
        (world_of one_user (inr "tok_1") Scenario.provider_AB)
        (Scenario.args_for "user@example.com")))
     = (["// Email: user@example.com"; "// User ID: 42"]
        ++ output_block Scenario.jar_AB)%list.
Proof.
  split; [reflexivity|].
  apply (unhindered_run
           (world_of one_user (inr "tok_1") Scenario.provider_AB)
           (Scenario.args_for "user@example.com")
           ["// Email: user@example.com"; "// User ID: 42"]
           "tok_1" Scenario.jar_AB);
    reflexivity.
Defined.

(** X6.  Whatever happens, the requests of a run are an initial part of
    its plan: the user lookup (unless skipped), then the link, then the
    verification of the token the link gave (unless the run is a dry
    run).  So each request is made at most once, none is repeated after
    a failure, and the verification is never asked before the link. *)
Theorem requests_follow_the_plan (w : World) (args : Args) :
  is_prefix (network (events (runMain w args))) (plan w args)
  /\ (length (network (events (runMain w args))) <= 3)%nat
  /\ NoDup (network (events (runMain w args))).
Proof.
  split; [apply network_prefix_plan|].
  unfold_flow. run_cases; split; simpl; try lia;
    repeat (constructor; [simpl; intuition discriminate|]); constructor.
Qed.

(** X7.  Every request of a run goes to the configured URL.  The user
    lookup and the link request carry the service-role key and the email
    of the arguments; the verification carries the anonymous key and the
    token the issuer gave for that email, and no other key or token. *)
Theorem requests_carry_the_right_credentials (w : World) (args : Args) :
  Forall (fun c =>
            match c with
            | UsersSelect url key address =>
                url = url_of w /\ key = service_key_of w
                /\ address = email args
            | GenerateLink url key address =>
                url = url_of w /\ key = service_key_of w
                /\ address = email args
            | VerifyOtp url key token =>
                url = url_of w /\ key = anon_key_of w
                /\ issued w args = inr token
            end) (network (events (runMain w args))).
Proof.
  apply Forall_forall. intros c Hin.
  destruct (network_prefix_plan w args) as [rest Hrest].
  assert (Hp : In c (plan w args))
    by (rewrite Hrest; apply in_app_iff; now left).
  apply in_plan in Hp.
  destruct Hp as [[H _]|[[H _]|[token [H [Hi _]]]]]; subst c; simpl;
    repeat split; assumption.
Qed.

(** X8.  A run ends with status 0 or with status 1, and with status 0
    exactly when it wrote nothing to the error stream; a run that ends
    with status 1 printed no snippet. *)
Theorem status_tells_failure (w : World) (args : Args) :
  (status (runMain w args) = 0 \/ status (runMain w args) = 1)
  /\ (status (runMain w args) = 0 <-> stderr (events (runMain w args)) = [])
  /\ (status (runMain w args) = 1 <->
      stderr (events (runMain w args)) <> [])
  /\ (status (runMain w args) = 1 ->
      Forall (fun s => ~ is_snippet s) (stdout (events (runMain w args)))).
Proof.
  split; [|split; [|split]].
  - destruct (status_and_stderr w args) as [[H _]|[H _]]; auto.
  - destruct (status_and_stderr w args) as [[H1 H2]|[H1 H2]];
      split; intros H; try assumption; try contradiction.
    rewrite H1 in H. discriminate.
  - destruct (status_and_stderr w args) as [[H1 H2]|[H1 H2]];
      split; intros H; try assumption.
    + rewrite H1 in H. discriminate.
    + contradiction.
  - intros H1.
    destruct (run_outcome w args)
      as [[token [cookies [pre [_ [_ [H0 _]]]]]]|Hnone]; [|exact Hnone].
    rewrite H0 in H1. discriminate.
Qed.

(** X8 at a run stopped by the issuer. *)
Lemma status_tells_failure_witness :
  status (runMain (world_of one_user (inl "AuthApiError: invalid email")
                     Scenario.provider_AB)
            (Scenario.args_for "user@example.com")) = 1
  /\ Forall (fun s => ~ is_snippet s)
       (stdout (events (runMain
          (world_of one_user (inl "AuthApiError: invalid email")
             Scenario.provider_AB)
          (Scenario.args_for "user@example.com")))).
Proof.
  split; [reflexivity|].
  apply (proj2 (proj2 (proj2 (status_tells_failure
           (world_of one_user (inl "AuthApiError: invalid email")
              Scenario.provider_AB)
           (Scenario.args_for "user@example.com"))))).
  reflexivity.
Defined.

End RunProps.

(* ================================================================== *)
(** * More facts about the shim and the emitter *)
(* ================================================================== *)

Module MoreFacts.
Import Js Shim Emitter Cli Flow ObjFacts OrderFacts ShimFacts EmitterFacts.
Import CliFacts.

(** ** Overwriting *)

Lemma replace_own_twice {A : Type} (o : Obj A) (k : string) (v1 v2 : A) :
  replace_own (replace_own o k v1) k v2 = replace_own o k v2.
Proof.
  induction o as [|[k' v'] o IH]; simpl; [reflexivity|].
  destruct (String.eqb k' k) eqn:E; simpl; rewrite E; [reflexivity|].
  now rewrite IH.
Qed.

Lemma replace_own_fresh {A : Type} (o : Obj A) (k : string) (v1 v2 : A) :
  ~ In k (keys o) ->
  replace_own (o ++ [(k, v1)])%list k v2 = (o ++ [(k, v2)])%list.
Proof.
  induction o as [|[k' v'] o IH]; simpl; intros Hk.
  - now rewrite String.eqb_refl.
  - destruct (String.eqb_spec k' k) as [->|Hne].
    + exfalso. apply Hk. now left.
    + rewrite IH; [reflexivity|]. intros H. apply Hk. now right.
Qed.

Lemma put_twice {A : Type} (o : Obj A) (k : string) (v1 v2 : A) :
  put (put o k v1) k v2 = put o k v2.
Proof.
  unfold put at 2 3. destruct (String.eqb k proto_key) eqn:Ep.
  - unfold put. now rewrite Ep.
  - destruct (has_own o k) eqn:Eo.
    + unfold put. rewrite Ep.
      assert (H : has_own (replace_own o k v1) k = true).
      { apply has_own_in. rewrite keys_replace. now apply has_own_in. }
      rewrite H. apply replace_own_twice.
    + unfold put. rewrite Ep.
      assert (H : has_own (o ++ [(k, v1)])%list k = true).
      { apply has_own_in. unfold keys. rewrite map_app, in_app_iff.
        right. now left. }
      rewrite H. apply replace_own_fresh. now apply has_own_false.
Qed.

Lemma first_occurrences_length (seen l : list string) :
  (length (first_occurrences seen l) <= length l)%nat.
Proof.
  revert seen. induction l as [|x l IH]; intros seen; simpl; [lia|].
  destruct (existsb (String.eqb x) seen); simpl.
  - specialize (IH seen). lia.
  - specialize (IH (x :: seen)). lia.
Qed.

Lemma first_occurrences_nil (seen l : list string) :
  first_occurrences seen l = [] <-> forall x, In x l -> In x seen.
Proof.
  induction l as [|x l IH]; simpl.
  - split; [intros _ y [] | reflexivity].
  - destruct (existsb (String.eqb x) seen) eqn:E.
    + apply existsb_exists in E. destruct E as [y [Hy Hxy]].
      apply String.eqb_eq in Hxy. subst y. rewrite IH. split.
      * intros H y [<-|Hin]; auto.
      * intros H y Hin. apply H. now right.
    + split; [discriminate|]. intros H. exfalso.
      assert (Hx : In x seen) by (apply H; now left).
      assert (Hc : existsb (String.eqb x) seen = true).
      { apply existsb_exists. exists x. split; [exact Hx|].
        apply String.eqb_refl. }
      congruence.
Qed.

(** ** The characters of an encoded string *)

Lemma all_chars_app (f : ascii -> bool) (a b : string) :
  all_chars f (a ++ b) = (all_chars f a && all_chars f b)%bool.
Proof.
  induction a as [|x a IH]; simpl; [reflexivity|].
  now rewrite IH, andb_assoc.
Qed.

Lemma encode_octet_plain (c : ascii) : all_chars plain (encode_octet c) = true.
Proof. destruct c as [[] [] [] [] [] [] [] []]; reflexivity. Qed.

Lemma encode_plain (s : string) : all_chars plain (encodeURIComponent s) = true.
Proof.
  unfold encodeURIComponent. induction s as [|c s IH]; [reflexivity|].
  cbn [flat_map_string]. now rewrite all_chars_app, encode_octet_plain, IH.
Qed.

Lemma occurs_all_chars (f : ascii -> bool) (c : ascii) (s : string) :
  all_chars f s = true -> f c = false -> occurs c s = false.
Proof.
  intros Hall Hc. induction s as [|x s IH]; simpl; [reflexivity|].
  simpl in Hall. apply andb_true_iff in Hall. destruct Hall as [Hx Hs].
  rewrite (IH Hs), orb_false_r.
  destruct (Ascii.eqb_spec x c) as [->|Hne]; [congruence | reflexivity].
Qed.

Lemma unescape_octet (c : ascii) (rest : string) :
  unescape (encode_octet c ++ rest) = String c (unescape rest).
Proof.
  destruct c as [[] [] [] [] [] [] [] []];
    (destruct rest as [|a [|b r]]; reflexivity).
Qed.

Lemma unescape_encode (s : string) : unescape (encodeURIComponent s) = s.
Proof.
  unfold encodeURIComponent. induction s as [|c s IH]; [reflexivity|].
  cbn [flat_map_string]. now rewrite unescape_octet, IH.
Qed.

Lemma encode_unreserved (s : string) :
  all_chars uriUnescaped s = true -> encodeURIComponent s = s.
Proof.
  unfold encodeURIComponent. induction s as [|c s IH]; [reflexivity|].
  cbn [flat_map_string all_chars]. intros H.
  apply andb_true_iff in H. destruct H as [Hc Hs].
  assert (E : encode_octet c = String c EmptyString)
    by (unfold encode_octet; now rewrite Hc).
  rewrite E, (IH Hs). reflexivity.
Qed.

(** ** Cutting a string at a separator *)

Lemma cut_at_first (d : ascii) (a a' b b' : string) :
  occurs d a = false -> occurs d a' = false ->
  (a ++ String d b = a' ++ String d b')%string -> a = a' /\ b = b'.
Proof.
  revert a'. induction a as [|x a IH]; intros [|x' a'] Ha Ha' H; simpl in *.
  - inversion H. now split.
  - inversion H. subst x'. rewrite Ascii.eqb_refl in Ha'. discriminate.
  - inversion H. subst x. rewrite Ascii.eqb_refl in Ha. discriminate.
  - inversion H. subst x'. apply orb_false_iff in Ha, Ha'.
    destruct (IH a' (proj2 Ha) (proj2 Ha') H2) as [-> ->]. now split.
Qed.

Lemma cut_before_tail (d : ascii) (a a' t t' : string) :
  occurs d a = false -> occurs d a' = false ->
  (t = EmptyString \/ exists r, t = String d r) ->
  (t' = EmptyString \/ exists r, t' = String d r) ->
  (a ++ t = a' ++ t')%string -> a = a' /\ t = t'.
Proof.
  revert a'. induction a as [|x a IH]; intros [|x' a'] Ha Ha' Ht Ht' H;
    simpl in *.
  - now split.
  - apply orb_false_iff in Ha'. destruct Ha' as [Hx _].
    destruct Ht as [->|[r ->]]; [discriminate|].
    inversion H. subst x'. rewrite Ascii.eqb_refl in Hx. discriminate.
  - apply orb_false_iff in Ha. destruct Ha as [Hx _].
    destruct Ht' as [->|[r ->]]; [discriminate|].
    inversion H. subst x. rewrite Ascii.eqb_refl in Hx. discriminate.
  - inversion H. subst x'. apply orb_false_iff in Ha, Ha'.
    destruct (IH a' (proj2 Ha) (proj2 Ha') Ht Ht' H2) as [-> ->].
    now split.
Qed.

(** The string of the loop body: the encoded pair, then a tail that is
    empty or starts with a semicolon. *)
Lemma cookieString_shape (name : string) (e : Entry) :
  exists tail,
    cookieString name e
    = (encodeURIComponent name
       ++ String "="%char (encodeURIComponent (value e) ++ tail))%string
    /\ (tail = EmptyString \/ exists r, tail = String ";"%char r).
Proof.
  unfold cookieString.
  destruct (is_defined (get_prop (options e) "maxAge"));
    destruct (ToBoolean (get_prop (options e) "path"));
    destruct (ToBoolean (get_prop (options e) "sameSite"));
    rewrite ?append_assoc; simpl; rewrite ?append_assoc; simpl;
    first [ exists EmptyString; rewrite append_nil_r;
            split; [reflexivity | left; reflexivity]
          | eexists; split; [reflexivity | right; eexists; reflexivity] ].
Qed.

End MoreFacts.

(* ================================================================== *)
(** * The captured jar, beyond the handlers one by one *)
(* ================================================================== *)

Module CaptureProps.
Import Js Shim Emitter Cli Flow ObjFacts OrderFacts ShimFacts EmitterFacts.
Import CliFacts MoreFacts.

(** X9.  After a successful verification the jar holds, under every
    name but [__proto__], the value and attribute set last written under
    that name, and nothing under a name never written; it holds each
    name once, only names that were written, never the name
    [__proto__], and no more entries than there were writes. *)
Theorem capture_holds_the_last_writes (p : Provider) (jar : Jar) :
  captureSession p = inr jar ->
  (forall name, name <> proto_key ->
     get_own jar name = last_write (writes (calls p empty_jar)) name)
  /\ is_object jar
  /\ (forall name, In name (keys jar) ->
        name <> proto_key
        /\ In name (map fst (writes (calls p empty_jar))))
  /\ (length jar <= length (writes (calls p empty_jar)))%nat.
Proof.
  intros H.
  destruct (capture_matches_writes p jar H) as [Hacc [Hlook [_ [Hobj Hkeys]]]].
  split; [exact Hlook|]. split; [exact Hobj|]. split.
  - intros name Hin. split.
    + intros ->. exact (captured_no_proto p jar H Hin).
    + rewrite Hacc in Hin. apply accumulate_keys in Hin.
      destruct Hin as [[]|Hin]. exact Hin.
  - assert (E : length jar = length (keys jar))
      by (unfold keys; now rewrite length_map).
    rewrite E, Hkeys.
    rewrite <- (length_map fst (writes (calls p empty_jar))).
    apply first_occurrences_length.
Qed.

(** X9 at a verifier that writes [7], [sid], [3] and [sid] again. *)
Lemma capture_holds_the_last_writes_witness :
  captureSession provider_mixed = inr jar_mixed
  /\ get_own jar_mixed "sid"
     = last_write (writes (calls provider_mixed empty_jar)) "sid"
  /\ get_own jar_mixed "sid"
     = Some {| value := "d"; options := [("maxAge", VNum 0)] |}.
Proof.
  split; [reflexivity|]. split; [|reflexivity].
  apply (proj1 (capture_holds_the_last_writes provider_mixed jar_mixed
                  eq_refl)).
  discriminate.
Defined.

(** X10.  Writing a name twice leaves the object exactly as writing the
    second value alone would: the first value is gone and the entry
    stands where the name was first written; writing the same entry
    twice is writing it once.  A write under a name the object already
    holds leaves the order of the names as it was. *)
Theorem overwrite_in_place :
  (forall name v1 v2 a1 a2 cookies,
     snd (set name v2 a2 (snd (set name v1 a1 cookies)))
     = snd (set name v2 a2 cookies))
  /\ (forall name v a cookies,
        snd (set name v a (snd (set name v a cookies)))
        = snd (set name v a cookies))
  /\ (forall name v a cookies,
        In name (keys cookies) ->
        keys (snd (set name v a cookies)) = keys cookies).
Proof.
  split; [|split].
  - intros. simpl. apply put_twice.
  - intros. simpl. apply put_twice.
  - intros name v a cookies Hin. simpl. rewrite keys_put.
    destruct (String.eqb name proto_key); [reflexivity|].
    apply has_own_in in Hin. now rewrite Hin.
Qed.

(** X10 at the jar of section 8, [A] written again. *)
Lemma overwrite_in_place_witness :
  In "A" (keys Scenario.jar_AB)
  /\ keys (snd (set "A" "9" [("path", VStr "/")] Scenario.jar_AB))
     = ["A"; "B"].
Proof.
  split; [left; reflexivity|].
  rewrite (proj2 (proj2 overwrite_in_place) "A" "9" [("path", VStr "/")]
             Scenario.jar_AB); [reflexivity|].
  left. reflexivity.
Defined.

(** X11.  Writes under two different names can be made in either
    order: under every name the object holds the same entry afterwards
    (the order of the names may differ). *)
Theorem writes_under_different_names_commute
    (n1 n2 v1 v2 : string) (a1 a2 : Obj Value) (cookies : Jar) :
  n1 <> n2 ->
  forall name,
    get_own (snd (set n1 v1 a1 (snd (set n2 v2 a2 cookies)))) name
    = get_own (snd (set n2 v2 a2 (snd (set n1 v1 a1 cookies)))) name.
Proof.
  intros Hne name. simpl.
  destruct (String.eqb_spec n1 proto_key) as [->|H1];
    [now rewrite !put_proto|].
  destruct (String.eqb_spec n2 proto_key) as [->|H2];
    [now rewrite !put_proto|].
  destruct (String.eqb_spec name n1) as [->|Hn1].
  - rewrite get_own_put_same by exact H1.
    rewrite get_own_put_other by exact Hne.
    now rewrite get_own_put_same by exact H1.
  - rewrite (get_own_put_other _ n1 name) by exact Hn1.
    destruct (String.eqb_spec name n2) as [->|Hn2].
    + now rewrite !get_own_put_same by exact H2.
    + now rewrite !get_own_put_other by assumption.
Qed.

(** X11 at the two cookies of section 8, written in the other order. *)
Lemma writes_under_different_names_commute_witness :
  "A" <> "B"
  /\ get_own (snd (set "A" "1" []
               (snd (set "B" "2" [("path", VStr "/app")] empty_jar)))) "B"
     = get_own Scenario.jar_AB "B".
Proof.
  split; [discriminate|].
  rewrite (writes_under_different_names_commute "A" "B" "1" "2" []
             [("path", VStr "/app")] empty_jar); [reflexivity|].
  discriminate.
Defined.

(** X12.  The result of the capture depends on the provider through
    its writes and its final answer only: two providers that make the
    same writes in the same order and resolve alike give the same
    result, whatever they read or clear in between. *)
Theorem capture_depends_on_writes_only (p q : Provider) :
  writes (calls p empty_jar) = writes (calls q empty_jar) ->
  fst (verifyOtp p empty_jar) = fst (verifyOtp q empty_jar) ->
  captureSession p = captureSession q.
Proof.
  intros Hw He. unfold captureSession.
  pose proof (verifyOtp_accumulates p empty_jar) as Hp.
  pose proof (verifyOtp_accumulates q empty_jar) as Hq.
  destruct (verifyOtp p empty_jar) as [ep cp].
  destruct (verifyOtp q empty_jar) as [eq cq].
  simpl in *. subst. now rewrite Hw.
Qed.

(** X12 at a verifier with reads and clears and one with the same
    writes alone. *)
Lemma capture_depends_on_writes_only_witness :
  writes (calls Scenario.provider_rw empty_jar)
    = writes (calls (CallSet "a" "1" [] (fun _ =>
                     CallSet "a" "2" [("path", VStr "/")] (fun _ =>
                     Resolve None))) empty_jar)
  /\ captureSession Scenario.provider_rw
     = captureSession (CallSet "a" "1" [] (fun _ =>
                       CallSet "a" "2" [("path", VStr "/")] (fun _ =>
                       Resolve None))).
Proof.
  split; [reflexivity|].
  apply capture_depends_on_writes_only; reflexivity.
Defined.

(** X13.  A successful verification gives the empty jar exactly when it
    wrote no cookie, or none but under the name [__proto__]; a verifier
    that writes nothing is a success with an empty jar, not an error. *)
Theorem empty_jar_means_no_write (p : Provider) (jar : Jar) :
  captureSession p = inr jar ->
  (jar = [] <->
   forall name, In name (map fst (writes (calls p empty_jar))) ->
                name = proto_key)
  /\ (writes (calls p empty_jar) = [] -> jar = []).
Proof.
  intros H.
  destruct (capture_matches_writes p jar H) as [_ [_ [_ [_ Hkeys]]]].
  assert (Hiff : jar = [] <->
    forall name, In name (map fst (writes (calls p empty_jar))) ->
                 name = proto_key).
  { split.
    - intros ->. simpl in Hkeys. symmetry in Hkeys.
      intros name Hin.
      destruct (proj1 (first_occurrences_nil _ _) Hkeys name Hin) as [E|[]].
      now symmetry.
    - intros Hall.
      assert (E : first_occurrences [proto_key]
                    (map fst (writes (calls p empty_jar))) = []).
      { apply first_occurrences_nil. intros x Hx. left.
        symmetry. now apply Hall. }
      rewrite E in Hkeys. destruct jar; [reflexivity | discriminate]. }
  split; [exact Hiff|].
  intros Hw. apply Hiff. rewrite Hw. intros name [].
Qed.

(** X13 at a verifier that reads and clears and writes nothing. *)
Lemma empty_jar_means_no_write_witness :
  captureSession provider_silent = inr []
  /\ writes (calls provider_silent empty_jar) = []
  /\ forall name,
       In name (map fst (writes (calls provider_silent empty_jar))) ->
       name = proto_key.
Proof.
  split; [reflexivity|]. split; [reflexivity|].
  apply (proj1 (proj1 (empty_jar_means_no_write provider_silent [] eq_refl))).
  reflexivity.
Defined.

End CaptureProps.

(* ================================================================== *)
(** * The snippet, beyond one assignment *)
(* ================================================================== *)

Module SnippetProps.
Import Js Shim Emitter Cli Flow ObjFacts OrderFacts ShimFacts EmitterFacts.
Import CliFacts MoreFacts.

(** X14.  For a captured jar in which every cookie was written with an
    options object, no cookie is named [hasOwnProperty], and no name or
    value holds a lone surrogate, the snippet assigns [document.cookie]
    once per entry of the jar and ends without an exception: the
    assignments are those of the entries, up to their order. *)
Theorem snippet_assigns_each_cookie_once (p : Provider) (cookies : Jar) :
  captureSession p = inr cookies ->
  has_own cookies "hasOwnProperty" = false ->
  well_formed_jar cookies = true ->
  Permutation (assigned (run_snippet cookies))
    (map (fun q => cookieString (fst q) (literal_entry (snd q))) cookies)
  /\ length (assigned (run_snippet cookies)) = length cookies
  /\ thrown (run_snippet cookies) = None.
Proof.
  intros Hcap Hno Hwf.
  rewrite run_snippet_ok;
    [|now apply captured_is_object with (p := p) | exact Hno | exact Hwf].
  simpl. unfold literal_jar. rewrite map_map.
  assert (Hp : Permutation
    (map (fun x => cookie_of (fst x, literal_entry (snd x)))
       (enumerate cookies))
    (map (fun q => cookieString (fst q) (literal_entry (snd q))) cookies)).
  { apply (Permutation_map
             (fun q => cookieString (fst q) (literal_entry (snd q)))).
    apply enumerate_perm. }
  split; [exact Hp|]. split; [|reflexivity].
  rewrite (Permutation_length Hp). apply length_map.
Qed.

(** X14 at a jar with array indices among the names. *)
Lemma snippet_assigns_each_cookie_once_witness :
  captureSession provider_mixed = inr jar_mixed
  /\ assigned (run_snippet jar_mixed) = ["3=c"; "7=a"; "sid=d; max-age=0"]
  /\ length (assigned (run_snippet jar_mixed)) = length jar_mixed.
Proof.
  split; [reflexivity|]. split; [reflexivity|].
  apply (snippet_assigns_each_cookie_once provider_mixed jar_mixed);
    reflexivity.
Defined.

(** X15.  Two ways the snippet of a captured jar ends with an exception.
    If the jar holds a cookie named [hasOwnProperty], the entry shadows
    the method the loop calls: the first iteration throws a [TypeError]
    and no cookie at all is assigned, the others included.  If there is
    no such cookie and, in the order of the loop, an entry whose name or
    value holds a lone surrogate comes after entries that hold none,
    [encodeURIComponent] throws a [URIError] at that entry: the entries
    before it have been assigned, that entry and those after it are
    not. *)
Theorem shadowed_method_stops_the_snippet (p : Provider) (cookies : Jar) :
  captureSession p = inr cookies ->
  (has_own cookies "hasOwnProperty" = true ->
   run_snippet cookies
   = {| assigned := []; thrown := Some not_a_function |})
  /\ (forall before k e after,
        has_own cookies "hasOwnProperty" = false ->
        enumerate cookies = (before ++ (k, e) :: after)%list ->
        well_formed_jar before = true ->
        encodable k e = false ->
        run_snippet cookies
        = {| assigned :=
               map (fun q => cookieString (fst q) (literal_entry (snd q)))
                 before;
             thrown := Some uri_malformed |}).
Proof.
  intros Hcap. split.
  - intros H. unfold run_snippet. apply writeCookies_shadowed.
    now rewrite has_own_literal_jar.
  - intros before k e after Hno Henum Hwf Hbad.
    pose proof (captured_is_object p cookies Hcap) as Hobj.
    set (lit := fun q : string * Entry => (fst q, literal_entry (snd q))).
    assert (Hlit : literal_jar cookies
                   = (map lit before ++ (k, literal_entry e) :: map lit after)%list)
      by (unfold literal_jar; rewrite Henum, map_app; reflexivity).
    unfold run_snippet, writeCookies. rewrite enumerate_literal_jar.
    replace (map fst (literal_jar cookies))
      with (keys (map lit before ++ (k, literal_entry e) :: map lit after)%list)
      by (rewrite Hlit; reflexivity).
    rewrite (write_loop_stops _ (map lit before) (map lit after) k
               (literal_entry e)).
    + rewrite map_map. reflexivity.
    + now apply is_object_literal_jar.
    + now rewrite has_own_literal_jar.
    + rewrite <- Hlit. apply incl_refl.
    + clear - Hwf. unfold well_formed_jar in *.
      induction before as [|[k' e'] before IH]; [reflexivity|].
      simpl in *. apply andb_true_iff in Hwf. destruct Hwf as [H1 H2].
      apply andb_true_iff. split; [exact H1 | now apply IH].
    + exact Hbad.
Qed.

(** X15 at a verifier that writes [sid] and [hasOwnProperty], and at one
    that writes a lone surrogate in the second of three cookies. *)
Lemma shadowed_method_stops_the_snippet_witness :
  (captureSession provider_shadow = inr jar_shadow
   /\ has_own jar_shadow "hasOwnProperty" = true
   /\ run_snippet jar_shadow
      = {| assigned := []; thrown := Some not_a_function |})
  /\ (captureSession provider_surrogate = inr jar_surrogate
      /\ run_snippet jar_surrogate
         = {| assigned := ["a=1; path=/"]; thrown := Some uri_malformed |}).
Proof.
  split.
  - split; [reflexivity|]. split; [reflexivity|].
    apply (proj1 (shadowed_method_stops_the_snippet provider_shadow
                    jar_shadow eq_refl)).
    reflexivity.
  - split; [reflexivity|].
    apply (proj2 (shadowed_method_stops_the_snippet provider_surrogate
                    jar_surrogate eq_refl)
             [("a", {| value := "1"; options := [("path", VStr "/")] |})]
             "b" {| value := "x" ++ lone_surrogate; options := [] |}
             [("c", {| value := "3"; options := [] |})]);
      reflexivity.
Defined.

(** X16.  The string assigned for a cookie tells its name and its
    value: two entries that give the same string have the same name and
    the same value, whatever their attributes. *)
Theorem assignment_determines_cookie (n n' : string) (e e' : Entry) :
  cookieString n e = cookieString n' e' -> n = n' /\ value e = value e'.
Proof.
  intros H.
  destruct (cookieString_shape n e) as [t [E Ht]].
  destruct (cookieString_shape n' e') as [t' [E' Ht']].
  rewrite E, E' in H.
  assert (Heq : forall s, occurs "="%char (encodeURIComponent s) = false)
    by (intros s; apply (occurs_all_chars plain);
        [apply encode_plain | reflexivity]).
  assert (Hsemi : forall s, occurs ";"%char (encodeURIComponent s) = false)
    by (intros s; apply (occurs_all_chars plain);
        [apply encode_plain | reflexivity]).
  destruct (cut_at_first "="%char _ _ _ _ (Heq n) (Heq n') H) as [Hn Hrest].
  destruct (cut_before_tail ";"%char _ _ _ _ (Hsemi (value e))
              (Hsemi (value e')) Ht Ht' Hrest) as [Hv _].
  split.
  - rewrite <- (unescape_encode n), <- (unescape_encode n'). now rewrite Hn.
  - rewrite <- (unescape_encode (value e)), <- (unescape_encode (value e')).
    now rewrite Hv.
Qed.

(** X16 at two entries that differ in an attribute the snippet drops. *)
Lemma assignment_determines_cookie_witness :
  cookieString "a b"
    {| value := "x;y=z"; options := [("secure", VBool true)] |}
    = cookieString "a b" {| value := "x;y=z"; options := [] |}
  /\ ("a b" = "a b"
      /\ value {| value := "x;y=z"; options := [("secure", VBool true)] |}
         = value {| value := "x;y=z"; options := [] |}).
Proof.
  split; [reflexivity|].
  apply (assignment_determines_cookie "a b" "a b"
           {| value := "x;y=z"; options := [("secure", VBool true)] |}
           {| value := "x;y=z"; options := [] |}).
  reflexivity.
Defined.

(** X17.  The name and the value of an assignment are written with
    unreserved characters and percent signs only, so neither brings a
    semicolon, an equals sign, a space or a comma into the string; a
    name or value of unreserved characters only is written unchanged;
    and the encoding can be read back, so different names, and different
    values, are written differently. *)
Theorem encoded_pair_is_plain_and_reversible :
  (forall s, all_chars plain (encodeURIComponent s) = true)
  /\ (forall s, occurs ";"%char (encodeURIComponent s) = false
                /\ occurs "="%char (encodeURIComponent s) = false
                /\ occurs " "%char (encodeURIComponent s) = false
                /\ occurs ","%char (encodeURIComponent s) = false)
  /\ (forall s, all_chars uriUnescaped s = true -> encodeURIComponent s = s)
  /\ (forall s, unescape (encodeURIComponent s) = s)
  /\ (forall a b, encodeURIComponent a = encodeURIComponent b -> a = b).
Proof.
  split; [apply encode_plain|]. split; [|split; [|split]].
  - intros s. repeat split; apply (occurs_all_chars plain);
      solve [apply encode_plain | reflexivity].
  - apply encode_unreserved.
  - apply unescape_encode.
  - intros a b H.
    rewrite <- (unescape_encode a), <- (unescape_encode b). now rewrite H.
Qed.

(** X17 at the name of the example of section 8. *)
Lemma encoded_pair_is_plain_and_reversible_witness :
  all_chars uriUnescaped "sb-access-token" = true
  /\ encodeURIComponent "sb-access-token" = "sb-access-token".
Proof.
  split; [reflexivity|].
  apply (proj1 (proj2 (proj2 encoded_pair_is_plain_and_reversible))).
  reflexivity.
Defined.

End SnippetProps.

(* ================================================================== *)
(** * The earlier revision against the present one *)
(* ================================================================== *)

Module EarlierProps.
Import Js Shim Emitter Cli Flow ObjFacts ShimFacts EmitterFacts CliFacts.
Import FlowFacts MoreFacts.

(** X19.  The text the earlier revision prints is the snippet of the
    present one between two line breaks, for every jar; trimming it
    gives the snippet. *)
Theorem earlier_text_is_the_snippet_untrimmed (cookies : Jar) :
  Earlier.snippet_text cookies = (nl ++ render cookies ++ nl)%string
  /\ trim (Earlier.snippet_text cookies) = render cookies.
Proof.
  split; [|reflexivity].
  rewrite render_closed. unfold Earlier.snippet_text.
  change template_head with (nl ++ snippet_head)%string.
  assert (E : template_tail = (snippet_tail ++ nl)%string)
    by (vm_compute; reflexivity).
  rewrite E. now rewrite !append_assoc.
Qed.

(** X20.  The earlier revision does what the present one does with the
    user check skipped and no dry run: the same requests in the same
    order, none of them a user lookup, the same lines on the error
    stream, the same status; and it prints nothing when the present one
    prints nothing, and its own block for the same jar when the present
    one prints its block. *)
Theorem earlier_run_matches_present (w : World) (address : string) :
  network (events (Earlier.runMain w address))
  = network (events (runMain w
      {| email := address; skip_check := true; dry_run := false |}))
  /\ (forall url key e,
        ~ In (UsersSelect url key e)
             (network (events (Earlier.runMain w address))))
  /\ stderr (events (Earlier.runMain w address))
     = stderr (events (runMain w
         {| email := address; skip_check := true; dry_run := false |}))
  /\ status (Earlier.runMain w address)
     = status (runMain w
         {| email := address; skip_check := true; dry_run := false |})
  /\ ((stdout (events (Earlier.runMain w address)) = []
       /\ stdout (events (runMain w
            {| email := address; skip_check := true; dry_run := false |}))
          = [])
      \/ exists cookies,
           stdout (events (Earlier.runMain w address))
             = earlier_block cookies
           /\ stdout (events (runMain w
                {| email := address; skip_check := true;
                   dry_run := false |}))
              = output_block cookies).
Proof.
  unfold Earlier.runMain, Earlier.run, Earlier.emit. run_cases;
    (split; [reflexivity|]);
    (split; [intros url key e; simpl; intuition discriminate|]);
    (split; [reflexivity|]); (split; [reflexivity|]);
    first [ left; split; reflexivity
          | right; eexists; split; reflexivity ].
Qed.

End EarlierProps.
